(** * sync_dns_to_wecom_docs: the DNS-to-sheet synchronisation of [src/main.ts]

    A shallow embedding of the record normaliser ([process_dns_records]),
    the sheet reconciler ([process_wedocs]), the module-level configuration
    check and the entry point, followed by the properties the specification
    states about them.

    Conventions of the embedding.
    - A JavaScript string is a Rocq [string]: a finite sequence of code
      units.  Record names and values are plain ASCII host names and
      addresses; the two non-ASCII default column titles are only ever used
      as opaque keys.
    - [===] on strings is decidable equality, [Array.prototype.filter],
      [map], [find], [includes] are the list functions of the same name.
    - The calls to [log] only format diagnostic lines; they take no part in
      any computed value and are left out. *)

From stdpp Require Import gmap strings list fin_maps sorting.
From Stdlib Require Import ZArith Ascii.

Open Scope string_scope.
Open Scope list_scope.

(** ** Data model *)

(** [RESOURCE] of [zdns/lib/types]: only the four attributes that
    [process_dns_records] reads. *)
Module RESOURCE.
Record t : Type := mk
  { name : string; type : string; rdata : string; is_enable : string }.
End RESOURCE.

(** The object literal [{ name, rdata }] built at line 91. *)
Module Normalized.
Record t : Type := mk { name : string; rdata : string }.

#[global] Instance eq_dec : EqDecision t.
Proof. solve_decision. Defined.
End Normalized.

(** ** JavaScript string primitives *)

(** [s.substring(start, end)]: both indices are clamped to [0, s.length]
    and swapped when [start > end]. *)
Definition js_substring (s : string) (start end_ : Z) : string :=
  let len := Z.of_nat (String.length s) in
  let a := Z.max 0 (Z.min start len) in
  let b := Z.max 0 (Z.min end_ len) in
  let lo := Z.min a b in
  let hi := Z.max a b in
  String.substring (Z.to_nat lo) (Z.to_nat (hi - lo)) s.

(** [record.name.substring(0, record.name.length - 1)] *)
Definition name_without_suffix (name : string) : string :=
  js_substring name 0 (Z.of_nat (String.length name) - 1).

(** [xs.join(",")], the reading of "comma-separated concatenation". *)
Fixpoint join_comma (xs : list string) : string :=
  match xs with
  | [] => ""
  | [x] => x
  | x :: rest => x +:+ "," +:+ join_comma rest
  end.

(** ** The normaliser, [process_dns_records] (lines 81-105) *)

Definition enabled_records (dns_records : list RESOURCE.t) : list RESOURCE.t :=
  filter (λ record, RESOURCE.is_enable record = "yes") dns_records.

Definition specified_type_records (dns_records : list RESOURCE.t)
  : list RESOURCE.t :=
  filter (λ record, RESOURCE.type record ∈ ["CNAME"; "A"; "AAAA"])
         (enabled_records dns_records).

Definition simple_record (record : RESOURCE.t) : Normalized.t :=
  {| Normalized.name := name_without_suffix (RESOURCE.name record);
     Normalized.rdata := RESOURCE.rdata record |}.

Definition simple_record_data (dns_records : list RESOURCE.t)
  : list Normalized.t :=
  simple_record <$> specified_type_records dns_records.

(** One iteration of the [for ... of] loop: [find] the first entry of
    [records_data] with the same name; overwrite its [rdata] where it sits,
    or [push] the record. *)
Definition merge_record (records_data : list Normalized.t)
    (record : Normalized.t) : list Normalized.t :=
  match list_find (λ r, Normalized.name r = Normalized.name record)
                  records_data with
  | Some (i, existing_record) =>
      <[i := {| Normalized.name := Normalized.name existing_record;
                Normalized.rdata := Normalized.rdata existing_record
                                    +:+ "," +:+ Normalized.rdata record |}]>
        records_data
  | None => records_data ++ [record]
  end.

Definition merge_records (simple : list Normalized.t) : list Normalized.t :=
  foldl merge_record [] simple.

Definition process_dns_records (dns_records : list RESOURCE.t)
  : list Normalized.t :=
  merge_records (simple_record_data dns_records).

(** ** Specification-side vocabulary for the normaliser *)

(** The distinct elements of a list, each at the place of its first
    occurrence. *)
Fixpoint first_occurrences (names : list string) : list string :=
  match names with
  | [] => []
  | n :: rest => n :: filter (λ m, m ≠ n) (first_occurrences rest)
  end.

(** The values of the entries of [simple] called [n], in input order. *)
Definition rdata_of (n : string) (simple : list Normalized.t) : list string :=
  Normalized.rdata <$> filter (λ r, Normalized.name r = n) simple.

(** What the assignment at line 98 leaves in the entry it hits. *)
Definition merged_with (record e : Normalized.t) : Normalized.t :=
  {| Normalized.name := Normalized.name e;
     Normalized.rdata := Normalized.rdata e +:+ "," +:+ Normalized.rdata record |}.

(** The entry the loop has built for the name [n] once it has gone through
    [simple]. *)
Definition merged_entry (simple : list Normalized.t) (n : string)
  : Normalized.t :=
  {| Normalized.name := n; Normalized.rdata := join_comma (rdata_of n simple) |}.

(** ** Plain objects used as dictionaries *)

(** The own properties of an object created by [Object.fromEntries], in
    creation order.  Writing an existing key overwrites the value where the
    key already sits. *)
Fixpoint obj_set {V : Type} (k : string) (v : V) (o : list (string * V))
  : list (string * V) :=
  match o with
  | [] => [(k, v)]
  | (k', v') :: o' =>
      if decide (k' = k) then (k, v) :: o' else (k', v') :: obj_set k v o'
  end.

Definition Object_fromEntries {V : Type} (entries : list (string * V))
  : list (string * V) :=
  foldl (λ o e, obj_set e.1 e.2 o) [] entries.

Fixpoint obj_own {V : Type} (o : list (string * V)) (k : string) : option V :=
  match o with
  | [] => None
  | (k', v) :: o' => if decide (k' = k) then Some v else obj_own o' k
  end.

(** The property names every plain object inherits from [Object.prototype]
    (ECMAScript 20.1.3, with the legacy accessors Node.js ships). *)
Definition Object_prototype_keys : list string :=
  [ "constructor"; "__defineGetter__"; "__defineSetter__"; "hasOwnProperty";
    "__lookupGetter__"; "__lookupSetter__"; "isPrototypeOf";
    "propertyIsEnumerable"; "toString"; "valueOf"; "__proto__";
    "toLocaleString" ].

(** [k in o]: own or inherited. *)
Definition js_in {V : Type} (k : string) (o : list (string * V)) : bool :=
  bool_decide (is_Some (obj_own o k)) || bool_decide (k ∈ Object_prototype_keys).

(** What a property read can yield here: a row id, a member of
    [Object.prototype], or [undefined]. *)
Inductive js_value : Type :=
  | VString (s : string)
  | VInherited (key : string)
  | VUndefined.

#[global] Instance js_value_eq_dec : EqDecision js_value.
Proof. solve_decision. Defined.

(** [o[k]] *)
Definition obj_get (o : list (string * string)) (k : string) : js_value :=
  match obj_own o k with
  | Some v => VString v
  | None => if bool_decide (k ∈ Object_prototype_keys)
            then VInherited k else VUndefined
  end.

(** Array indices are the canonical decimal numerals below [2^32 - 1];
    [Object.keys] lists them first, in ascending numeric order. *)
Definition digit_of (a : Ascii.ascii) : option N :=
  let n := Ascii.N_of_ascii a in
  if ((48 <=? n) && (n <=? 57))%N then Some (n - 48)%N else None.

Fixpoint parse_digits (s : string) (acc : N) : option N :=
  match s with
  | EmptyString => Some acc
  | String a s' =>
      match digit_of a with
      | Some d => parse_digits s' (acc * 10 + d)%N
      | None => None
      end
  end.

Definition array_index (k : string) : option N :=
  match k with
  | EmptyString => None
  | String "0"%char EmptyString => Some 0%N
  | String "0"%char _ => None
  | _ => match parse_digits k 0 with
         | Some n => if (n <? 2 ^ 32 - 1)%N then Some n else None
         | None => None
         end
  end.

Definition index_keys (ks : list string) : list (N * string) :=
  omap (λ k, (λ n, (n, k)) <$> array_index k) ks.

Definition index_le (x y : N * string) : Prop := (x.1 ≤ y.1)%N.

#[global] Instance index_le_dec : RelDecision index_le.
Proof. intros x y. unfold index_le. apply _. Defined.

Definition Object_keys {V : Type} (o : list (string * V)) : list string :=
  (merge_sort index_le (index_keys o.*1)).*2
  ++ filter (λ k, array_index k = None) o.*1.

(** ** Sheet rows and the remote services *)

Module Fragment.
Record t : Type := mk { type : string; text : string }.
End Fragment.

(** A row as [SmartSheet.Record.records] returns it. *)
Module SheetRow.
Record t : Type := mk
  { record_id : string; values : gmap string (list Fragment.t) }.
End SheetRow.

(** A row as the reconciler submits it to [add] and [update]. *)
Module OutRow.
Record t : Type := mk
  { record_id : js_value; values : gmap string (list Fragment.t) }.
End OutRow.

Module Statistics.
Record t : Type := mk { added : nat; updated : nat; deleted : nat }.
End Statistics.

(** The eleven constants the module-level check guards, and the optional
    API key (lines 9-14). *)
Record config : Type := Config
  { APPWRITE_ENDPOINT : string;
    APPWRITE_FUNCTION_PROJECT_ID : string;
    APPWRITE_API_KEY : option string;
    APPWRITE_DATABASE_ID : string;
    APPWRITE_COLLECTION_ID : string;
    ZDNS_API_HOST : string;
    ZDNS_API_USERNAME : string;
    ZDNS_API_PASSWORD : string;
    CORP_ID : string;
    SECRET : string;
    DOC_ID : string;
    SHEET_ID : string }.

(** Every request that leaves the process. *)
Inductive request : Type :=
  | Zdns_shared_rrs_get (base_url app_username app_password : string)
  | Record_records (corpId secret docid sheet_id : string)
  | Record_add (corpId secret docid sheet_id : string)
               (records : list OutRow.t)
  | Record_update (corpId secret docid sheet_id : string)
                  (records : list OutRow.t)
  | Record_del (corpId secret docid sheet_id : string)
               (record_ids : list js_value).

Inductive event : Type :=
  | Console_info (message : string)
  | Network (r : request).

Inductive exn : Type :=
  | TypeError
  | Error (message : string)
  | Rejection (reason : string).

(** How an awaited call settles. *)
Inductive reply (A : Type) : Type :=
  | Fulfilled (a : A)
  | Rejected (reason : string).
Arguments Fulfilled {A} a.
Arguments Rejected {A} reason.

(** The answers of the two remote services.  Each kind of request is made
    at most once per run, so an answer per request describes a whole run.
    [add] answers an object whose [records] member is an array, [update] an
    array; only their lengths are read. *)
Record remote : Type := Remote
  { answer_shared_rrs_get : reply (list RESOURCE.t);
    answer_records : reply (list SheetRow.t);
    answer_add : list OutRow.t → reply (list SheetRow.t);
    answer_update : list OutRow.t → reply (list SheetRow.t);
    answer_del : list js_value → reply unit }.

(** ** Programs: the events emitted so far, and how the run went on *)

Inductive outcome (A : Type) : Type :=
  | Returned (a : A)
  | Threw (e : exn)
  | Exited (code : Z).
Arguments Returned {A} a.
Arguments Threw {A} e.
Arguments Exited {A} code.

Definition prog (A : Type) : Type := list event * outcome A.

Definition prog_ret {A : Type} (a : A) : prog A := ([], Returned a).

Definition prog_bind {A B : Type} (m : prog A) (f : A → prog B) : prog B :=
  match m with
  | (tr, Returned a) => let '(tr', o) := f a in (tr ++ tr', o)
  | (tr, Threw e) => (tr, Threw e)
  | (tr, Exited c) => (tr, Exited c)
  end.

#[global] Instance prog_mret : MRet prog := @prog_ret.
#[global] Instance prog_mbind : MBind prog := λ A B f m, prog_bind m f.

Definition throw {A : Type} (e : exn) : prog A := ([], Threw e).

(** [await f(request)] *)
Definition await {A : Type} (r : request) (answer : reply A) : prog A :=
  match answer with
  | Fulfilled a => ([Network r], Returned a)
  | Rejected reason => ([Network r], Threw (Rejection reason))
  end.

(** A partial read such as [undefined[0]] raises [TypeError]. *)
Definition or_type_error {A : Type} (o : option A) : prog A :=
  match o with
  | Some a => prog_ret a
  | None => throw TypeError
  end.

(** ** The sheet reconciler, [process_wedocs] (lines 112-168) *)

(** [process.env.K], with the default of a destructuring pattern. *)
Definition env_or (env : gmap string string) (k d : string) : string :=
  default d (env !! k).

Definition FIELD_DNS_NAME (env : gmap string string) : string :=
  env_or env "FIELD_DNS_NAME" "信息系统域名".
Definition FIELD_DNS_RDATA (env : gmap string string) : string :=
  env_or env "FIELD_DNS_RDATA" "域名解析记录".
Definition REMOVE_IRRELEVANT_RECORDS (env : gmap string string) : string :=
  env_or env "REMOVE_IRRELEVANT_RECORDS" "false".

(** Line 116. *)
Definition remove_irrelevant_records (env : gmap string string) : bool :=
  bool_decide (REMOVE_IRRELEVANT_RECORDS env = "true") || true.

(** [record.values[FIELD_DNS_NAME][0].text]; [None] where the read raises
    (no such field, or a field without fragments). *)
Definition row_name (field : string) (record : SheetRow.t) : option string :=
  frags ← SheetRow.values record !! field;
  f ← head frags;
  Some (Fragment.text f).

(** The entries given to [Object.fromEntries] at line 121. *)
Definition name_id_entries (field : string) (res : list SheetRow.t)
  : option (list (string * string)) :=
  mapM (λ record, n ← row_name field record;
                  Some (n, SheetRow.record_id record)) res.

Definition text_fragment (s : string) : list Fragment.t :=
  [ {| Fragment.type := "text"; Fragment.text := s |} ].

(** The object literal of lines 133-136 and 149-152; when both fields have
    the same title the later member wins. *)
Definition row_values (env : gmap string string) (r : Normalized.t)
  : gmap string (list Fragment.t) :=
  <[FIELD_DNS_RDATA env := text_fragment (Normalized.rdata r)]>
    (<[FIELD_DNS_NAME env := text_fragment (Normalized.name r)]> ∅).

Definition records_to_insert (record_name_id_mappings : list (string * string))
    (dns_records_data : list Normalized.t) : list Normalized.t :=
  filter (λ r, ¬ js_in (Normalized.name r) record_name_id_mappings)
         dns_records_data.

Definition records_to_update (record_name_id_mappings : list (string * string))
    (dns_records_data : list Normalized.t) : list Normalized.t :=
  filter (λ r, js_in (Normalized.name r) record_name_id_mappings)
         dns_records_data.

Definition dns_record_names (dns_records_data : list Normalized.t)
  : list string :=
  Normalized.name <$> dns_records_data.

Definition records_to_delete (record_name_id_mappings : list (string * string))
    (dns_records_data : list Normalized.t) : list string :=
  filter (λ name, name ∉ dns_record_names dns_records_data)
         (Object_keys record_name_id_mappings).

(** The [records] submitted to [add] (lines 131-137): the temporary id of
    a new row is the name itself. *)
Definition insert_payload (env : gmap string string)
    (record_name_id_mappings : list (string * string))
    (dns_records_data : list Normalized.t) : list OutRow.t :=
  (λ r, {| OutRow.record_id := VString (Normalized.name r);
           OutRow.values := row_values env r |})
  <$> records_to_insert record_name_id_mappings dns_records_data.

(** The [records] submitted to [update] (lines 147-153). *)
Definition update_payload (env : gmap string string)
    (record_name_id_mappings : list (string * string))
    (dns_records_data : list Normalized.t) : list OutRow.t :=
  (λ r, {| OutRow.record_id :=
             obj_get record_name_id_mappings (Normalized.name r);
           OutRow.values := row_values env r |})
  <$> records_to_update record_name_id_mappings dns_records_data.

(** The [record_ids] submitted to [del] (line 163). *)
Definition delete_payload (record_name_id_mappings : list (string * string))
    (dns_records_data : list Normalized.t) : list js_value :=
  obj_get record_name_id_mappings
  <$> records_to_delete record_name_id_mappings dns_records_data.

Definition sheet_call {A : Type} (cfg : config)
    (mk : string → string → string → string → A) : A :=
  mk (CORP_ID cfg) (SECRET cfg) (DOC_ID cfg) (SHEET_ID cfg).

(** The inverse dictionary of lines 125-127 is built and never read; it is
    not modelled. *)
Definition process_wedocs (cfg : config) (env : gmap string string)
    (world : remote) (dns_records_data : list Normalized.t)
  : prog Statistics.t :=
  res ← await (sheet_call cfg Record_records) (answer_records world);
  entries ← or_type_error (name_id_entries (FIELD_DNS_NAME env) res);
  let record_name_id_mappings := Object_fromEntries entries in
  let records := insert_payload env record_name_id_mappings dns_records_data in
  res ← await (sheet_call cfg Record_add records) (answer_add world records);
  let added := length res in
  let records := update_payload env record_name_id_mappings dns_records_data in
  res ← await (sheet_call cfg Record_update records)
              (answer_update world records);
  let updated := length res in
  if remove_irrelevant_records env then
    let records_to_delete :=
      records_to_delete record_name_id_mappings dns_records_data in
    let record_ids := delete_payload record_name_id_mappings dns_records_data in
    _ ← await (sheet_call cfg Record_del record_ids)
              (answer_del world record_ids);
    mret {| Statistics.added := added; Statistics.updated := updated;
            Statistics.deleted := length records_to_delete |}
  else
    mret {| Statistics.added := added; Statistics.updated := updated;
            Statistics.deleted := 0 |}.

(** ** Configuration check, fetcher and entry point *)

(** [!X] for an environment variable: unset or empty. *)
Definition falsy (v : option string) : bool :=
  match v with
  | None => true
  | Some s => bool_decide (s = "")
  end.

Definition mandatory : list string :=
  [ "APPWRITE_ENDPOINT"; "APPWRITE_FUNCTION_PROJECT_ID";
    "APPWRITE_DATABASE_ID"; "APPWRITE_COLLECTION_ID"; "ZDNS_API_HOST";
    "ZDNS_API_USERNAME"; "ZDNS_API_PASSWORD"; "CORP_ID"; "SECRET"; "DOC_ID";
    "SHEET_ID" ].

(** Lines 9-14: [None] when the condition of the [if] holds. *)
Definition load_config (env : gmap string string) : option config :=
  if existsb (λ k, falsy (env !! k)) mandatory then None
  else Some
    {| APPWRITE_ENDPOINT := env_or env "APPWRITE_ENDPOINT" "";
       APPWRITE_FUNCTION_PROJECT_ID := env_or env "APPWRITE_FUNCTION_PROJECT_ID" "";
       APPWRITE_API_KEY := env !! "APPWRITE_API_KEY";
       APPWRITE_DATABASE_ID := env_or env "APPWRITE_DATABASE_ID" "";
       APPWRITE_COLLECTION_ID := env_or env "APPWRITE_COLLECTION_ID" "";
       ZDNS_API_HOST := env_or env "ZDNS_API_HOST" "";
       ZDNS_API_USERNAME := env_or env "ZDNS_API_USERNAME" "";
       ZDNS_API_PASSWORD := env_or env "ZDNS_API_PASSWORD" "";
       CORP_ID := env_or env "CORP_ID" "";
       SECRET := env_or env "SECRET" "";
       DOC_ID := env_or env "DOC_ID" "";
       SHEET_ID := env_or env "SHEET_ID" "" |}.

(** Lines 31-43.  The client library [node-appwrite] is not part of the
    repository: what [setEndpoint] does with the value it is given is the
    parameter [setEndpoint], [None] when it accepts the value and returns
    the client, [Some e] when it throws [e] (recent versions of the library
    throw on a value that does not start with http:// or https://).  The
    constructor, [setProject] and [setKey] only record their argument.  The
    chain of lines 32-34 runs before the test on [NODE_ENV]; the client
    itself is never used afterwards. *)
Definition init_appwrite_client (setEndpoint : string → option exn)
    (cfg : config) (env : gmap string string) : prog unit :=
  match setEndpoint (APPWRITE_ENDPOINT cfg) with
  | Some e => throw e
  | None =>
      if bool_decide (env !! "NODE_ENV" = Some "development") then
        if falsy (APPWRITE_API_KEY cfg)
        then throw (Error "APPWRITE_API_KEY is required in development mode")
        else prog_ret ()
      else prog_ret ()
  end.

(** Lines 69-74. *)
Definition get_dns_records (cfg : config) (world : remote)
  : prog (list RESOURCE.t) :=
  await (Zdns_shared_rrs_get (ZDNS_API_HOST cfg) (ZDNS_API_USERNAME cfg)
                             (ZDNS_API_PASSWORD cfg))
        (answer_shared_rrs_get world).

(** The default export (lines 170-190).  The statistics are only logged;
    what the function returns is [res.empty()], the unit value here. *)
Definition entrypoint (setEndpoint : string → option exn) (cfg : config)
    (env : gmap string string) (world : remote) : prog unit :=
  _ ← init_appwrite_client setEndpoint cfg env;
  dns_records ← get_dns_records cfg world;
  let records_data := process_dns_records dns_records in
  statistics ← process_wedocs cfg env world records_data;
  mret ().

(** Loading the module, then one invocation by the harness. *)
Definition run (setEndpoint : string → option exn)
    (env : gmap string string) (world : remote) : prog unit :=
  match load_config env with
  | None => ([Console_info "appwrite envs not configured!"], Exited (-1))
  | Some cfg => entrypoint setEndpoint cfg env world
  end.

Definition network_calls (tr : list event) : list request :=
  omap (λ e, match e with Network r => Some r | Console_info _ => None end) tr.

(** ** The normaliser on a store of objects

    [process_dns_records] once more, this time with the arrays and objects
    it handles laid out in a store and addressed by reference, so that the
    assignment at line 98 is a write to a shared object.  A program is stuck
    ([None]) when it follows a reference to nothing or to an object of the
    wrong shape, which the types of the source rule out. *)
Module Store.

Inductive object : Type :=
  | Resource_obj (r : RESOURCE.t)
  | Simple_obj (r : Normalized.t)
  | Array_obj (elems : list positive).

Definition heap_prog (A : Type) : Type :=
  gmap positive object → option (A * gmap positive object).

#[global] Instance heap_mret : MRet heap_prog := λ A a h, Some (a, h).
#[global] Instance heap_mbind : MBind heap_prog := λ A B f m h,
  match m h with
  | Some (a, h') => f a h'
  | None => None
  end.

Definition stuck {A : Type} : heap_prog A := λ _, None.

(** A new object gets a reference that is not in use. *)
Definition alloc (o : object) : heap_prog positive := λ h,
  let l := fresh (dom h) in Some (l, <[l := o]> h).

Definition load (l : positive) : heap_prog object := λ h,
  match h !! l with
  | Some o => Some (o, h)
  | None => None
  end.

Definition store (l : positive) (o : object) : heap_prog unit := λ h,
  match h !! l with
  | Some _ => Some ((), <[l := o]> h)
  | None => None
  end.

Definition get_resource (l : positive) : heap_prog RESOURCE.t :=
  o ← load l;
  match o with Resource_obj r => mret r | _ => stuck end.

Definition get_simple (l : positive) : heap_prog Normalized.t :=
  o ← load l;
  match o with Simple_obj r => mret r | _ => stuck end.

Definition get_array (l : positive) : heap_prog (list positive) :=
  o ← load l;
  match o with Array_obj elems => mret elems | _ => stuck end.

(** [arr.filter(p)]: a new array holding the same references. *)
Fixpoint filter_elems (P : RESOURCE.t → Prop) `{!∀ r, Decision (P r)}
    (elems : list positive) : heap_prog (list positive) :=
  match elems with
  | [] => mret []
  | l :: rest =>
      r ← get_resource l;
      kept ← filter_elems P rest;
      mret (if decide (P r) then l :: kept else kept)
  end.

Definition array_filter (P : RESOURCE.t → Prop) `{!∀ r, Decision (P r)}
    (arr : positive) : heap_prog positive :=
  elems ← get_array arr;
  kept ← filter_elems P elems;
  alloc (Array_obj kept).

(** [arr.map(record => ({ name: ..., rdata: ... }))]: a new object per
    element. *)
Fixpoint map_elems (elems : list positive) : heap_prog (list positive) :=
  match elems with
  | [] => mret []
  | l :: rest =>
      r ← get_resource l;
      l' ← alloc (Simple_obj (simple_record r));
      rest' ← map_elems rest;
      mret (l' :: rest')
  end.

Definition array_map (arr : positive) : heap_prog positive :=
  elems ← get_array arr;
  mapped ← map_elems elems;
  alloc (Array_obj mapped).

(** [records_data.find(r => r.name === n)]: the reference itself. *)
Fixpoint find_elem (n : string) (elems : list positive)
  : heap_prog (option positive) :=
  match elems with
  | [] => mret None
  | l :: rest =>
      r ← get_simple l;
      if decide (Normalized.name r = n) then mret (Some l)
      else find_elem n rest
  end.

(** The body of the loop, lines 95-101. *)
Definition merge_step (records_data record : positive) : heap_prog unit :=
  r ← get_simple record;
  elems ← get_array records_data;
  found ← find_elem (Normalized.name r) elems;
  match found with
  | Some existing_record =>
      e ← get_simple existing_record;
      store existing_record
        (Simple_obj {| Normalized.name := Normalized.name e;
                       Normalized.rdata := Normalized.rdata e +:+ ","
                                           +:+ Normalized.rdata r |})
  | None => store records_data (Array_obj (elems ++ [record]))
  end.

(** The loop walks [simple_record_data], which nothing writes to. *)
Fixpoint merge_loop (records_data : positive) (elems : list positive)
  : heap_prog unit :=
  match elems with
  | [] => mret ()
  | record :: rest =>
      _ ← merge_step records_data record;
      merge_loop records_data rest
  end.

(** Lines 85-93: the two filters, the map and the empty [records_data];
    hands back [records_data] and the elements the loop is about to visit. *)
Definition prepare (dns_records : positive)
  : heap_prog (positive * list positive) :=
  enabled_records ←
    array_filter (λ record, RESOURCE.is_enable record = "yes") dns_records;
  specified_type_records ←
    array_filter (λ record, RESOURCE.type record ∈ ["CNAME"; "A"; "AAAA"])
                 enabled_records;
  simple_record_data ← array_map specified_type_records;
  records_data ← alloc (Array_obj []);
  elems ← get_array simple_record_data;
  mret (records_data, elems).

Definition process_dns_records (dns_records : positive)
  : heap_prog positive :=
  p ← prepare dns_records;
  _ ← merge_loop p.1 p.2;
  mret p.1.

(** Reading an array of records back out of a store. *)
Definition resource_at (h : gmap positive object) (l : positive)
  : option RESOURCE.t :=
  match h !! l with Some (Resource_obj r) => Some r | _ => None end.

Definition simple_at (h : gmap positive object) (l : positive)
  : option Normalized.t :=
  match h !! l with Some (Simple_obj r) => Some r | _ => None end.

Definition resources_at (h : gmap positive object) (arr : positive)
  : option (list RESOURCE.t) :=
  match h !! arr with
  | Some (Array_obj elems) => mapM (resource_at h) elems
  | _ => None
  end.

Definition simples_at (h : gmap positive object) (arr : positive)
  : option (list Normalized.t) :=
  match h !! arr with
  | Some (Array_obj elems) => mapM (simple_at h) elems
  | _ => None
  end.

End Store.

(** ** A sample deployment, used to run the model on concrete data *)
Module Sample.

Definition cfg : config :=
  {| APPWRITE_ENDPOINT := "https://appwrite.example/v1";
     APPWRITE_FUNCTION_PROJECT_ID := "project";
     APPWRITE_API_KEY := None;
     APPWRITE_DATABASE_ID := "database";
     APPWRITE_COLLECTION_ID := "collection";
     ZDNS_API_HOST := "https://zdns.example";
     ZDNS_API_USERNAME := "user";
     ZDNS_API_PASSWORD := "password";
     CORP_ID := "corp";
     SECRET := "secret";
     DOC_ID := "doc";
     SHEET_ID := "sheet" |}.

(** An environment that sets the eleven mandatory variables as in [cfg],
    and the delete toggle to [toggle]. *)
Definition env (toggle : string) : gmap string string :=
  list_to_map
    [ ("APPWRITE_ENDPOINT", "https://appwrite.example/v1");
      ("APPWRITE_FUNCTION_PROJECT_ID", "project");
      ("APPWRITE_DATABASE_ID", "database");
      ("APPWRITE_COLLECTION_ID", "collection");
      ("ZDNS_API_HOST", "https://zdns.example");
      ("ZDNS_API_USERNAME", "user");
      ("ZDNS_API_PASSWORD", "password");
      ("CORP_ID", "corp"); ("SECRET", "secret"); ("DOC_ID", "doc");
      ("SHEET_ID", "sheet");
      ("REMOVE_IRRELEVANT_RECORDS", toggle) ].

(** A sheet row with the default column titles. *)
Definition row (id name rdata : string) : SheetRow.t :=
  {| SheetRow.record_id := id;
     SheetRow.values :=
       <[ "域名解析记录" := text_fragment rdata ]>
         (<[ "信息系统域名" := text_fragment name ]> ∅) |}.

(** A sheet that holds [rows], served by a provider that returns
    [resources]; [add] and [update] answer one row per submitted row. *)
Definition world (resources : list RESOURCE.t) (rows : list SheetRow.t)
  : remote :=
  {| answer_shared_rrs_get := Fulfilled resources;
     answer_records := Fulfilled rows;
     answer_add := λ records, Fulfilled ((λ _, row "" "" "") <$> records);
     answer_update := λ records, Fulfilled ((λ _, row "" "" "") <$> records);
     answer_del := λ _, Fulfilled () |}.

(** [setEndpoint] as the library has it from version 16 on. *)
Definition setEndpoint (endpoint : string) : option exn :=
  if String.prefix "http://" endpoint || String.prefix "https://" endpoint
  then None
  else Some (Error ("Invalid endpoint URL: " +:+ endpoint)).

End Sample.

(** The five kinds of request, numbered in the order in which the source
    makes them. *)
Definition request_kind (r : request) : nat :=
  match r with
  | Zdns_shared_rrs_get _ _ _ => 0
  | Record_records _ _ _ _ => 1
  | Record_add _ _ _ _ _ => 2
  | Record_update _ _ _ _ _ => 3
  | Record_del _ _ _ _ _ => 4
  end.

(** [Object.entries(o)]: the own properties, in the order of
    [Object.keys]. *)
Definition Object_entries {V : Type} (o : list (string * V))
  : list (string * V) :=
  omap (λ k, (λ v, (k, v)) <$> obj_own o k) (Object_keys o).

(** The inverse dictionary of lines 125-127, from row id to name, taken on
    its own: [process_wedocs] builds it and does not read it. *)
Definition record_id_name_mappings
    (record_name_id_mappings : list (string * string))
  : list (string * string) :=
  Object_fromEntries
    ((λ e, (e.2, e.1)) <$> Object_entries record_name_id_mappings).

(** * Properties *)

(** ** Strings *)

Lemma string_app_cons (c : ascii) (s t : string) :
  String c s +:+ t = String c (s +:+ t).
Proof. reflexivity. Qed.

Lemma string_app_assoc (s t u : string) : (s +:+ t) +:+ u = s +:+ t +:+ u.
Proof.
  induction s as [|c s IH]; [done |]. by rewrite !string_app_cons, IH.
Qed.

Lemma substring_prefix (s t : string) :
  String.substring 0 (String.length s) (s +:+ t) = s.
Proof.
  induction s as [|c s IH]; [by destruct t |].
  rewrite string_app_cons. simpl. by rewrite IH.
Qed.

Lemma string_length_app (s t : string) :
  String.length (s +:+ t) = (String.length s + String.length t)%nat.
Proof. induction s as [|c s IH]; simpl; [done | by f_equal]. Qed.

(** The normalisation drops the last code unit, whatever it is. *)
Lemma name_without_suffix_snoc (s : string) (c : ascii) :
  name_without_suffix (s +:+ String c "") = s.
Proof.
  unfold name_without_suffix, js_substring.
  rewrite string_length_app. simpl String.length.
  set (n := String.length s). set (len := Z.of_nat (n + 1)).
  assert (Z.min (Z.max 0 (Z.min 0 len)) (Z.max 0 (Z.min (len - 1) len)) = 0%Z)
    as -> by lia.
  assert (Z.max (Z.max 0 (Z.min 0 len)) (Z.max 0 (Z.min (len - 1) len))
          = Z.of_nat n) as -> by lia.
  rewrite Z.sub_0_r, Nat2Z.id. simpl Z.to_nat.
  apply substring_prefix.
Qed.

Lemma name_without_suffix_dot (s : string) :
  name_without_suffix (s +:+ ".") = s.
Proof. apply name_without_suffix_snoc. Qed.

Lemma name_without_suffix_empty : name_without_suffix "" = "".
Proof. reflexivity. Qed.

Lemma join_comma_snoc (xs : list string) (x : string) :
  xs ≠ [] → join_comma (xs ++ [x]) = join_comma xs +:+ "," +:+ x.
Proof.
  induction xs as [|y xs IH]; [done | intros _].
  destruct xs as [|z xs]; [done |].
  change (join_comma ((y :: z :: xs) ++ [x]))
    with (y +:+ "," +:+ join_comma ((z :: xs) ++ [x])).
  rewrite IH by done.
  change (join_comma (y :: z :: xs)) with (y +:+ "," +:+ join_comma (z :: xs)).
  by rewrite !string_app_assoc.
Qed.

(** ** First occurrences *)

Lemma first_occurrences_elem (l : list string) (x : string) :
  x ∈ first_occurrences l ↔ x ∈ l.
Proof.
  induction l as [|n l IH]; simpl; [done |].
  rewrite !elem_of_cons, list_elem_of_filter, IH.
  destruct (decide (x = n)); intuition congruence.
Qed.

Lemma first_occurrences_NoDup (l : list string) : NoDup (first_occurrences l).
Proof.
  induction l as [|n l IH]; simpl; [constructor |].
  constructor; [| by apply NoDup_filter].
  rewrite list_elem_of_filter. intros [Hne _]. by apply Hne.
Qed.

Lemma first_occurrences_sublist (l : list string) :
  first_occurrences l `sublist_of` l.
Proof.
  induction l as [|n l IH]; simpl; [done |].
  constructor. etrans; [apply sublist_filter | done].
Qed.

Lemma first_occurrences_snoc (l : list string) (n : string) :
  first_occurrences (l ++ [n]) =
  if decide (n ∈ l) then first_occurrences l else first_occurrences l ++ [n].
Proof.
  induction l as [|m l IH]; simpl; [done |].
  rewrite IH. clear IH.
  destruct (decide (n = m)) as [->|Hne].
  - rewrite (decide_True (P := m ∈ m :: l)) by left.
    destruct (decide (m ∈ l)); [done |].
    rewrite filter_app, filter_cons_False by (intros H; by apply H).
    by rewrite filter_nil, app_nil_r.
  - destruct (decide (n ∈ l)) as [Hin|Hin].
    + by rewrite decide_True by (by right).
    + rewrite decide_False by (rewrite elem_of_cons; intros [?|?]; done).
      by rewrite filter_app, filter_cons_True, filter_nil by done.
Qed.

(** ** The merge loop *)

Lemma merge_record_cons (e : Normalized.t) (acc : list Normalized.t)
    (record : Normalized.t) :
  merge_record (e :: acc) record =
  if decide (Normalized.name e = Normalized.name record)
  then merged_with record e :: acc
  else e :: merge_record acc record.
Proof.
  unfold merge_record. simpl list_find.
  destruct (decide (Normalized.name e = Normalized.name record)); [done |].
  by destruct (list_find _ acc) as [[i x]|].
Qed.

Lemma merge_record_spec (acc : list Normalized.t) (record : Normalized.t) :
  NoDup (dns_record_names acc) →
  merge_record acc record =
  if decide (Normalized.name record ∈ dns_record_names acc)
  then (λ e, if decide (Normalized.name e = Normalized.name record)
             then merged_with record e else e) <$> acc
  else acc ++ [record].
Proof.
  unfold dns_record_names.
  induction acc as [|e acc IH]; [done |].
  rewrite fmap_cons, NoDup_cons. intros [Hnotin Hnd].
  rewrite merge_record_cons, fmap_cons.
  destruct (decide (Normalized.name e = Normalized.name record)) as [Heq|Hne].
  - rewrite decide_True by (rewrite Heq; left).
    f_equal. rewrite <- (list_fmap_id acc) at 1.
    apply list_fmap_ext. intros i x Hx. simpl.
    rewrite decide_False; [done |].
    intros Hx'. apply Hnotin. rewrite Heq, <- Hx'.
    apply list_elem_of_fmap_2. by eapply list_elem_of_lookup_2.
  - rewrite IH by done.
    destruct (decide (_ ∈ Normalized.name <$> acc)) as [Hin|Hin].
    + by rewrite decide_True by (by right).
    + rewrite decide_False; [done |].
      rewrite elem_of_cons. intros [?|?]; [by apply Hne | done].
Qed.

Lemma merge_records_snoc (simple : list Normalized.t) (record : Normalized.t) :
  merge_records (simple ++ [record]) =
  merge_record (merge_records simple) record.
Proof. unfold merge_records. by rewrite foldl_app. Qed.

Lemma rdata_of_snoc (n : string) (simple : list Normalized.t)
    (record : Normalized.t) :
  rdata_of n (simple ++ [record]) =
  if decide (Normalized.name record = n)
  then rdata_of n simple ++ [Normalized.rdata record]
  else rdata_of n simple.
Proof.
  unfold rdata_of. rewrite filter_app.
  destruct (decide (Normalized.name record = n)).
  - by rewrite filter_cons_True, filter_nil, fmap_app by done.
  - by rewrite filter_cons_False, filter_nil, app_nil_r by done.
Qed.

Lemma rdata_of_nil_iff (n : string) (simple : list Normalized.t) :
  rdata_of n simple = [] ↔ n ∉ dns_record_names simple.
Proof.
  unfold rdata_of, dns_record_names.
  induction simple as [|r simple IH]; simpl.
  - split; [intros _; apply not_elem_of_nil | done].
  - rewrite not_elem_of_cons, <- IH.
    destruct (decide (Normalized.name r = n)) as [Heq|Hne].
    + rewrite filter_cons_True by done. split; [done | intros [? _]; congruence].
    + rewrite filter_cons_False by done. split; [split; congruence | tauto].
Qed.

(** The loop in closed form: one entry per distinct name, where the name
    was first seen, holding the joined values of that name. *)
Lemma merge_records_closed_form (simple : list Normalized.t) :
  merge_records simple =
  merged_entry simple <$> first_occurrences (dns_record_names simple).
Proof.
  induction simple as [|record simple IH] using rev_ind; [done |].
  rewrite merge_records_snoc, IH. clear IH.
  set (fo := first_occurrences (dns_record_names simple)).
  assert (dns_record_names (merged_entry simple <$> fo) = fo) as Hnames.
  { unfold dns_record_names. rewrite <- list_fmap_compose.
    rewrite <- (list_fmap_id fo) at 2. by apply list_fmap_ext. }
  rewrite merge_record_spec
    by (rewrite Hnames; apply first_occurrences_NoDup).
  rewrite Hnames.
  assert (dns_record_names (simple ++ [record])
          = dns_record_names simple ++ [Normalized.name record]) as ->
    by (unfold dns_record_names; by rewrite fmap_app).
  rewrite first_occurrences_snoc. fold fo.
  destruct (decide (Normalized.name record ∈ fo)) as [Hin|Hin].
  - rewrite decide_True by (by apply first_occurrences_elem).
    rewrite <- list_fmap_compose. apply list_fmap_ext. intros i n Hn. simpl.
    unfold merged_entry, merged_with. simpl.
    rewrite rdata_of_snoc.
    destruct (decide (n = Normalized.name record)) as [->|Hne].
    + rewrite decide_True by done.
      rewrite join_comma_snoc; [done |].
      rewrite rdata_of_nil_iff. intros Hc. apply Hc.
      by apply first_occurrences_elem.
    + by rewrite decide_False by done.
  - rewrite decide_False by (by rewrite <- first_occurrences_elem).
    rewrite fmap_app. f_equal.
    + apply list_fmap_ext. intros i n Hn. unfold merged_entry.
      rewrite rdata_of_snoc, decide_False; [done |].
      intros <-. apply Hin. by eapply list_elem_of_lookup_2.
    + simpl. unfold merged_entry.
      rewrite rdata_of_snoc, decide_True by done.
      assert (rdata_of (Normalized.name record) simple = []) as ->.
      { apply rdata_of_nil_iff. by rewrite <- first_occurrences_elem. }
      by destruct record.
Qed.

(** ** The normaliser *)

Lemma process_dns_records_closed_form (dns_records : list RESOURCE.t) :
  process_dns_records dns_records =
  merged_entry (simple_record_data dns_records)
  <$> first_occurrences (dns_record_names (simple_record_data dns_records)).
Proof. apply merge_records_closed_form. Qed.

Lemma dns_record_names_merged (simple : list Normalized.t) (l : list string) :
  dns_record_names (merged_entry simple <$> l) = l.
Proof.
  unfold dns_record_names. rewrite <- list_fmap_compose.
  rewrite <- (list_fmap_id l) at 2. by apply list_fmap_ext.
Qed.

Lemma simple_record_data_names (dns_records : list RESOURCE.t) :
  dns_record_names (simple_record_data dns_records) =
  (λ record, name_without_suffix (RESOURCE.name record))
  <$> specified_type_records dns_records.
Proof.
  unfold dns_record_names, simple_record_data.
  by rewrite <- list_fmap_compose.
Qed.

Lemma specified_type_records_app (l1 l2 : list RESOURCE.t) :
  specified_type_records (l1 ++ l2) =
  specified_type_records l1 ++ specified_type_records l2.
Proof.
  unfold specified_type_records, enabled_records. by rewrite !filter_app.
Qed.

(** A record that either filter rejects leaves no trace in the result. *)
Lemma process_dns_records_skip (before after : list RESOURCE.t)
    (record : RESOURCE.t) :
  specified_type_records [record] = [] →
  process_dns_records (before ++ record :: after) =
  process_dns_records (before ++ after).
Proof.
  intros Hskip. unfold process_dns_records, simple_record_data.
  rewrite (specified_type_records_app before (record :: after)).
  rewrite (specified_type_records_app [record] after : 
             specified_type_records (record :: after) = _).
  rewrite Hskip. simpl. by rewrite <- specified_type_records_app.
Qed.

(** C1. Whatever the input, no two records of the result of
    [process_dns_records] have the same name, and the names of the result
    are the distinct names of the filtered and renamed input, each at the
    place where it first appears. *)
Theorem process_dns_records_names (dns_records : list RESOURCE.t) :
  NoDup (dns_record_names (process_dns_records dns_records)) ∧
  dns_record_names (process_dns_records dns_records) =
  first_occurrences
    ((λ record, name_without_suffix (RESOURCE.name record))
     <$> specified_type_records dns_records).
Proof.
  rewrite process_dns_records_closed_form, dns_record_names_merged.
  rewrite simple_record_data_names.
  split; [apply first_occurrences_NoDup | done].
Qed.

(** C2. Every record of the result carries, as [rdata], the values of the
    filtered records of its name joined with commas in input order,
    repeated values included.  In particular two records of one name with
    values 1.2.3.4 and 5.6.7.8 give 1.2.3.4,5.6.7.8, and two records with
    the same value give that value twice. *)
Theorem process_dns_records_rdata :
  (∀ dns_records : list RESOURCE.t,
     Forall (λ r, Normalized.rdata r =
                  join_comma (rdata_of (Normalized.name r)
                                       (simple_record_data dns_records)))
            (process_dns_records dns_records)) ∧
  (∀ name type1 type2 : string,
     type1 ∈ ["CNAME"; "A"; "AAAA"] → type2 ∈ ["CNAME"; "A"; "AAAA"] →
     process_dns_records
       [ RESOURCE.mk name type1 "1.2.3.4" "yes";
         RESOURCE.mk name type2 "5.6.7.8" "yes" ] =
     [ Normalized.mk (name_without_suffix name) "1.2.3.4,5.6.7.8" ]) ∧
  (∀ name type1 type2 value : string,
     type1 ∈ ["CNAME"; "A"; "AAAA"] → type2 ∈ ["CNAME"; "A"; "AAAA"] →
     process_dns_records
       [ RESOURCE.mk name type1 value "yes";
         RESOURCE.mk name type2 value "yes" ] =
     [ Normalized.mk (name_without_suffix name) (value +:+ "," +:+ value) ]).
Proof.
  assert (∀ name type1 type2 v1 v2 : string,
     type1 ∈ ["CNAME"; "A"; "AAAA"] → type2 ∈ ["CNAME"; "A"; "AAAA"] →
     process_dns_records
       [ RESOURCE.mk name type1 v1 "yes"; RESOURCE.mk name type2 v2 "yes" ] =
     [ Normalized.mk (name_without_suffix name) (v1 +:+ "," +:+ v2) ]) as Hpair.
  { intros name type1 type2 v1 v2 H1 H2.
    unfold process_dns_records, simple_record_data, specified_type_records,
      enabled_records.
    rewrite !filter_cons_True, !filter_nil by done.
    unfold merge_records. simpl.
    change (merge_record [] ?r) with [r].
    rewrite merge_record_cons. simpl. by rewrite decide_True by done. }
  split; [| split].
  - intros dns_records. rewrite process_dns_records_closed_form.
    apply Forall_fmap, Forall_forall. by intros n _.
  - intros name type1 type2 H1 H2. by rewrite Hpair.
  - intros name type1 type2 value H1 H2. by rewrite Hpair.
Qed.

Lemma process_dns_records_rdata_witness :
  Forall (λ r, Normalized.rdata r =
               join_comma (rdata_of (Normalized.name r)
                 (simple_record_data
                    [ RESOURCE.mk "a.com." "A" "1.1.1.1" "yes";
                      RESOURCE.mk "a.com." "AAAA" "::1" "yes";
                      RESOURCE.mk "b.com." "A" "2.2.2.2" "no" ])))
         (process_dns_records
            [ RESOURCE.mk "a.com." "A" "1.1.1.1" "yes";
              RESOURCE.mk "a.com." "AAAA" "::1" "yes";
              RESOURCE.mk "b.com." "A" "2.2.2.2" "no" ]) ∧
  process_dns_records
    [ RESOURCE.mk "a.com." "A" "1.2.3.4" "yes";
      RESOURCE.mk "a.com." "AAAA" "5.6.7.8" "yes" ] =
  [ Normalized.mk (name_without_suffix "a.com.") "1.2.3.4,5.6.7.8" ] ∧
  process_dns_records
    [ RESOURCE.mk "a.com." "A" "1.2.3.4" "yes";
      RESOURCE.mk "a.com." "A" "1.2.3.4" "yes" ] =
  [ Normalized.mk (name_without_suffix "a.com.") ("1.2.3.4" +:+ "," +:+ "1.2.3.4") ].
Proof.
  split; [| split].
  - apply (proj1 process_dns_records_rdata).
  - apply (proj1 (proj2 process_dns_records_rdata));
      repeat constructor.
  - apply (proj2 (proj2 process_dns_records_rdata));
      repeat constructor.
Defined.

(** C4. A name that ends in a dot loses that dot and nothing else, but a
    name without a trailing dot is not returned unchanged: it loses its last
    character. *)
Theorem name_without_trailing_dot_is_truncated :
  name_without_suffix "a.com." = "a.com" ∧
  name_without_suffix "a.com" = "a.co" ∧
  process_dns_records [ RESOURCE.mk "a.com" "A" "1.2.3.4" "yes" ] =
  [ Normalized.mk "a.co" "1.2.3.4" ].
Proof. by vm_compute. Qed.

(** C7. The first filter keeps, in order, the records whose [is_enable] is
    exactly the string yes and no others, whatever their type; a record it
    drops contributes nothing to the result. *)
Theorem enabled_records_exact (dns_records : list RESOURCE.t) :
  enabled_records dns_records `sublist_of` dns_records ∧
  (∀ record, record ∈ enabled_records dns_records ↔
             record ∈ dns_records ∧ RESOURCE.is_enable record = "yes") ∧
  (∀ before record after,
     dns_records = before ++ record :: after →
     RESOURCE.is_enable record ≠ "yes" →
     enabled_records dns_records = enabled_records (before ++ after) ∧
     process_dns_records dns_records = process_dns_records (before ++ after)) ∧
  (∀ name type rdata flag,
     flag ∈ ["YES"; "Yes"; "true"; "no"; ""] →
     RESOURCE.mk name type rdata flag ∉ enabled_records dns_records).
Proof.
  unfold enabled_records. split; [apply sublist_filter |]. split; [| split].
  - intros record. rewrite list_elem_of_filter. tauto.
  - intros before record after -> Hflag. split.
    + by rewrite !filter_app, filter_cons_False by done.
    + apply process_dns_records_skip.
      unfold specified_type_records, enabled_records.
      by rewrite filter_cons_False by done.
  - intros name type rdata flag Hflag. rewrite list_elem_of_filter. simpl.
    intros [-> _]. rewrite !elem_of_cons, elem_of_nil in Hflag.
    intuition discriminate.
Qed.

Lemma enabled_records_exact_witness :
  let dns_records :=
    [ RESOURCE.mk "a.com." "A" "1.1.1.1" "yes";
      RESOURCE.mk "b.com." "A" "2.2.2.2" "YES" ] in
  process_dns_records dns_records =
  process_dns_records [ RESOURCE.mk "a.com." "A" "1.1.1.1" "yes" ] ∧
  RESOURCE.mk "b.com." "A" "2.2.2.2" "YES" ∉ enabled_records dns_records.
Proof.
  intros dns_records. split.
  - apply (proj1 (proj2 (proj2 (enabled_records_exact dns_records)))
             [ RESOURCE.mk "a.com." "A" "1.1.1.1" "yes" ]
             (RESOURCE.mk "b.com." "A" "2.2.2.2" "YES") []);
      [reflexivity | discriminate].
  - apply (proj2 (proj2 (proj2 (enabled_records_exact dns_records)))).
    repeat constructor.
Defined.

(** C8. Of the enabled records the second filter keeps exactly those whose
    type is one of the strings CNAME, A, AAAA; a record of any other type,
    the lower-case spellings included, contributes nothing to the result. *)
Theorem specified_type_records_exact (dns_records : list RESOURCE.t) :
  (∀ record, record ∈ specified_type_records dns_records ↔
             record ∈ dns_records ∧ RESOURCE.is_enable record = "yes" ∧
             (RESOURCE.type record = "CNAME" ∨ RESOURCE.type record = "A" ∨
              RESOURCE.type record = "AAAA")) ∧
  (∀ before record after,
     dns_records = before ++ record :: after →
     RESOURCE.type record ≠ "CNAME" → RESOURCE.type record ≠ "A" →
     RESOURCE.type record ≠ "AAAA" →
     specified_type_records dns_records =
       specified_type_records (before ++ after) ∧
     process_dns_records dns_records = process_dns_records (before ++ after)) ∧
  (∀ name type rdata flag,
     type ∈ ["cname"; "a"; "aaaa"; "Cname"; "MX"; "TXT"; ""] →
     RESOURCE.mk name type rdata flag ∉ specified_type_records dns_records).
Proof.
  assert (∀ t : string, t ∈ ["CNAME"; "A"; "AAAA"] ↔
                        t = "CNAME" ∨ t = "A" ∨ t = "AAAA") as Htypes.
  { intros t. rewrite !elem_of_cons, elem_of_nil. tauto. }
  split; [| split].
  - intros record. unfold specified_type_records, enabled_records.
    rewrite !list_elem_of_filter, Htypes. tauto.
  - intros before record after -> H1 H2 H3.
    assert (RESOURCE.type record ∉ ["CNAME"; "A"; "AAAA"]) as Hnot
      by (rewrite Htypes; tauto).
    split.
    + unfold specified_type_records, enabled_records.
      rewrite !filter_app, (filter_cons _ record).
      destruct (decide (RESOURCE.is_enable record = "yes")); [| done].
      by rewrite filter_cons_False by done.
    + apply process_dns_records_skip.
      unfold specified_type_records, enabled_records.
      rewrite (filter_cons _ record).
      destruct (decide (RESOURCE.is_enable record = "yes")); [| done].
      by rewrite filter_cons_False by done.
  - intros name type rdata flag Htype.
    unfold specified_type_records. rewrite list_elem_of_filter, Htypes. simpl.
    intros [Hc _]. rewrite !elem_of_cons, elem_of_nil in Htype.
    intuition (subst; discriminate).
Qed.

Lemma specified_type_records_exact_witness :
  let dns_records :=
    [ RESOURCE.mk "a.com." "cname" "b.com." "yes";
      RESOURCE.mk "a.com." "A" "1.1.1.1" "yes" ] in
  process_dns_records dns_records =
  process_dns_records [ RESOURCE.mk "a.com." "A" "1.1.1.1" "yes" ] ∧
  RESOURCE.mk "a.com." "cname" "b.com." "yes"
    ∉ specified_type_records dns_records.
Proof.
  intros dns_records. split.
  - apply (proj1 (proj2 (specified_type_records_exact dns_records))
             [] (RESOURCE.mk "a.com." "cname" "b.com." "yes")
             [ RESOURCE.mk "a.com." "A" "1.1.1.1" "yes" ]);
      [reflexivity | discriminate ..].
  - apply (proj2 (proj2 (specified_type_records_exact dns_records))).
    repeat constructor.
Defined.

(** ** Dictionaries *)

Lemma obj_set_keys {V : Type} (k : string) (v : V) (o : list (string * V)) :
  (obj_set k v o).*1 = if decide (k ∈ o.*1) then o.*1 else o.*1 ++ [k].
Proof.
  induction o as [|[k' v'] o IH]; [done |].
  simpl obj_set.
  destruct (decide (k' = k)) as [->|Hne]; rewrite !fmap_cons; simpl fst.
  - by rewrite decide_True by left.
  - rewrite IH. destruct (decide (k ∈ o.*1)) as [Hin|Hin].
    + by rewrite decide_True by (by right).
    + rewrite decide_False; [done |].
      rewrite elem_of_cons. intros [?|?]; [by apply Hne | done].
Qed.

Lemma obj_own_set {V : Type} (k k' : string) (v : V) (o : list (string * V)) :
  obj_own (obj_set k v o) k' = if decide (k = k') then Some v else obj_own o k'.
Proof.
  induction o as [|[k0 v0] o IH]; simpl.
  - by destruct (decide (k = k')).
  - destruct (decide (k0 = k)) as [->|Hne]; simpl.
    + by destruct (decide (k = k')).
    + rewrite IH. destruct (decide (k0 = k')) as [->|]; [| done].
      by rewrite decide_False by done.
Qed.

Lemma obj_own_is_Some {V : Type} (o : list (string * V)) (k : string) :
  is_Some (obj_own o k) ↔ k ∈ o.*1.
Proof.
  induction o as [|[k' v] o IH]; simpl.
  - rewrite elem_of_nil. split; [by intros [? ?] | done].
  - rewrite elem_of_cons. destruct (decide (k' = k)) as [->|Hne].
    + split; [by left | by eexists].
    + rewrite IH. split; [by right | intros [?|?]; [by subst | done]].
Qed.

Lemma Object_fromEntries_snoc {V : Type} (es : list (string * V))
    (k : string) (v : V) :
  Object_fromEntries (es ++ [(k, v)]) = obj_set k v (Object_fromEntries es).
Proof. unfold Object_fromEntries. by rewrite foldl_app. Qed.

(** The own keys of [Object.fromEntries(es)] are the distinct keys of
    [es], in order of first occurrence. *)
Lemma Object_fromEntries_keys {V : Type} (es : list (string * V)) :
  (Object_fromEntries es).*1 = first_occurrences es.*1.
Proof.
  induction es as [|[k v] es IH] using rev_ind; [done |].
  rewrite Object_fromEntries_snoc, obj_set_keys, IH, fmap_app.
  simpl. rewrite first_occurrences_snoc.
  destruct (decide (k ∈ es.*1)).
  - by rewrite decide_True by (by apply first_occurrences_elem).
  - by rewrite decide_False by (by rewrite first_occurrences_elem).
Qed.

(** A later entry overrides an earlier one of the same key. *)
Lemma Object_fromEntries_own {V : Type} (es : list (string * V))
    (k : string) (v : V) :
  obj_own (Object_fromEntries es) k = Some v → (k, v) ∈ es.
Proof.
  induction es as [|[k' v'] es IH] using rev_ind; [done |].
  rewrite Object_fromEntries_snoc, obj_own_set, elem_of_app, list_elem_of_singleton.
  destruct (decide (k' = k)) as [->|]; [| by left; apply IH].
  intros [= ->]. by right.
Qed.

Lemma index_keys_snd (ks : list string) :
  (index_keys ks).*2 = filter (λ k, array_index k ≠ None) ks.
Proof.
  unfold index_keys. induction ks as [|k ks IH]; simpl; [done |].
  destruct (array_index k) as [n|] eqn:Hk; simpl.
  - rewrite filter_cons_True by (by rewrite Hk). by rewrite <- IH.
  - rewrite filter_cons_False; [done |]. rewrite Hk. intros H. by apply H.
Qed.

(** [Object.keys] lists every own key once. *)
Lemma Object_keys_Permutation {V : Type} (o : list (string * V)) :
  Object_keys o ≡ₚ o.*1.
Proof.
  unfold Object_keys.
  rewrite merge_sort_Permutation, index_keys_snd.
  etrans; [| apply (filter_app_complement (λ k, array_index k ≠ None))].
  apply Permutation_app; [done |].
  erewrite (list_filter_iff (λ k, array_index k = None)); [done |].
  intros k. simpl. destruct (array_index k); split; try done.
  - intros H. by destruct H.
  - intros _ H. by apply H.
Qed.

(** ** The reconciler *)

(** Line 116 yields [true] whatever the environment says. *)
Lemma remove_irrelevant_records_true (env : gmap string string) :
  remove_irrelevant_records env = true.
Proof. unfold remove_irrelevant_records. apply orb_true_r. Qed.

Lemma name_id_entries_spec (field : string) (res : list SheetRow.t)
    (entries : list (string * string)) :
  name_id_entries field res = Some entries →
  Forall2 (λ record e, row_name field record = Some e.1 ∧
                       e.2 = SheetRow.record_id record) res entries.
Proof.
  unfold name_id_entries. rewrite mapM_Some. intros H.
  eapply Forall2_impl; [exact H |]. intros record [n id] Hr. simpl in *.
  destruct (row_name field record) as [n'|]; simplify_eq/=; done.
Qed.

Lemma name_id_entries_keys (field : string) (res : list SheetRow.t)
    (entries : list (string * string)) (name : string) :
  name_id_entries field res = Some entries →
  name ∈ entries.*1 ↔ ∃ record, record ∈ res ∧ row_name field record = Some name.
Proof.
  intros H%name_id_entries_spec.
  induction H as [|record [n id] res entries [Hn _] _ IH].
  - rewrite fmap_nil, elem_of_nil. split; [done | intros (? & []%elem_of_nil & _)].
  - rewrite fmap_cons, elem_of_cons, IH. simpl in *. split.
    + intros [->|(r & ? & ?)]; [exists record | exists r];
        (split; [by constructor | done]).
    + intros (r & [->|?]%elem_of_cons & Hr); [left; congruence | right; eauto].
Qed.

(** The insert set and the update set split the records between them along
    the [in] test. *)
Lemma insert_update_partition (mapping : list (string * string))
    (data : list Normalized.t) :
  (∀ r, r ∈ records_to_insert mapping data → r ∉ records_to_update mapping data) ∧
  (∀ r, r ∈ data ↔ r ∈ records_to_insert mapping data ∨
                   r ∈ records_to_update mapping data) ∧
  records_to_update mapping data ++ records_to_insert mapping data ≡ₚ data.
Proof.
  unfold records_to_insert, records_to_update. split; [| split].
  - intros r. rewrite !list_elem_of_filter. tauto.
  - intros r. rewrite !list_elem_of_filter.
    destruct (js_in (Normalized.name r) mapping); simpl; tauto.
  - apply (filter_app_complement (λ r, js_in (Normalized.name r) mapping)).
Qed.

Lemma records_to_insert_elem (mapping : list (string * string))
    (data : list Normalized.t) (r : Normalized.t) :
  r ∈ records_to_insert mapping data ↔
  r ∈ data ∧ (Normalized.name r ∉ mapping.*1) ∧
  Normalized.name r ∉ Object_prototype_keys.
Proof.
  unfold records_to_insert, js_in.
  rewrite list_elem_of_filter, <- obj_own_is_Some.
  rewrite Is_true_true, orb_true_iff, !bool_decide_eq_true. tauto.
Qed.

Lemma records_to_delete_elem (mapping : list (string * string))
    (data : list Normalized.t) (name : string) :
  name ∈ records_to_delete mapping data ↔
  name ∈ mapping.*1 ∧ name ∉ dns_record_names data.
Proof.
  unfold records_to_delete.
  rewrite list_elem_of_filter, Object_keys_Permutation. tauto.
Qed.

Lemma records_to_delete_NoDup (mapping : list (string * string))
    (data : list Normalized.t) :
  NoDup mapping.*1 → NoDup (records_to_delete mapping data).
Proof.
  intros H. apply NoDup_filter. by rewrite Object_keys_Permutation.
Qed.

(** C3. With the toggle set to false the reconciler still computes the
    delete set, issues the delete call and counts the deleted rows: the flag
    of line 116 is true in every environment.  Run on the sheet a.com, c.com
    against the records a.com, d.com. *)
Theorem delete_toggle_is_ignored :
  (∀ env, remove_irrelevant_records env = true) ∧
  REMOVE_IRRELEVANT_RECORDS (Sample.env "false") = "false" ∧
  let rows := [ Sample.row "r1" "a.com" "1.1.1.1";
                Sample.row "r2" "c.com" "3.3.3.3" ] in
  let data := [ Normalized.mk "a.com" "1.1.1.1";
                Normalized.mk "d.com" "4.4.4.4" ] in
  let result :=
    process_wedocs Sample.cfg (Sample.env "false") (Sample.world [] rows) data in
  last (network_calls result.1) =
    Some (Record_del "corp" "secret" "doc" "sheet" [VString "r2"]) ∧
  result.2 = Returned {| Statistics.added := 1; Statistics.updated := 1;
                         Statistics.deleted := 1 |}.
Proof.
  split; [apply remove_irrelevant_records_true |].
  split; [by vm_compute |]. by vm_compute.
Qed.

(** C5. A record whose name is a member of [Object.prototype] passes the
    [in] test of lines 129 and 145 although no row has that name: on an
    empty sheet the record constructor is not inserted but sent to [update],
    with the inherited member as its row id. *)
Theorem inherited_name_is_updated_not_inserted :
  let data :=
    process_dns_records [ RESOURCE.mk "constructor." "A" "1.2.3.4" "yes" ] in
  let mapping : list (string * string) := Object_fromEntries [] in
  let result :=
    process_wedocs Sample.cfg (Sample.env "true") (Sample.world [] []) data in
  data = [ Normalized.mk "constructor" "1.2.3.4" ] ∧
  obj_own mapping "constructor" = None ∧
  records_to_insert mapping data = [] ∧
  records_to_update mapping data = data ∧
  network_calls result.1 =
    [ Record_records "corp" "secret" "doc" "sheet";
      Record_add "corp" "secret" "doc" "sheet" [];
      Record_update "corp" "secret" "doc" "sheet"
        [ {| OutRow.record_id := VInherited "constructor";
             OutRow.values :=
               row_values (Sample.env "true")
                          (Normalized.mk "constructor" "1.2.3.4") |} ];
      Record_del "corp" "secret" "doc" "sheet" [] ] ∧
  result.2 = Returned {| Statistics.added := 0; Statistics.updated := 1;
                         Statistics.deleted := 0 |}.
Proof. by vm_compute. Qed.

(** C6. When every call is answered, the names whose rows are deleted are
    exactly the names of existing rows for which there is no normalised
    record of that name, each once; their row ids go out in one delete call,
    the last call of the run; and [deleted] is the number of those names,
    whatever the call answers. *)
Theorem process_wedocs_deleted (cfg : config) (env : gmap string string)
    (world : remote) (data : list Normalized.t) (res : list SheetRow.t)
    (entries : list (string * string)) (inserted updated : list SheetRow.t) :
  let mapping := Object_fromEntries entries in
  let to_delete := records_to_delete mapping data in
  answer_records world = Fulfilled res →
  name_id_entries (FIELD_DNS_NAME env) res = Some entries →
  answer_add world (insert_payload env mapping data) = Fulfilled inserted →
  answer_update world (update_payload env mapping data) = Fulfilled updated →
  answer_del world (delete_payload mapping data) = Fulfilled () →
  NoDup to_delete ∧
  (∀ name, name ∈ to_delete ↔
     (∃ record, record ∈ res ∧
                row_name (FIELD_DNS_NAME env) record = Some name) ∧
     ¬ ∃ r, r ∈ data ∧ Normalized.name r = name) ∧
  Forall2 (λ name id, ∃ record, record ∈ res ∧
             row_name (FIELD_DNS_NAME env) record = Some name ∧
             id = VString (SheetRow.record_id record))
          to_delete (delete_payload mapping data) ∧
  process_wedocs cfg env world data =
    ( [ Network (sheet_call cfg Record_records);
        Network (sheet_call cfg Record_add (insert_payload env mapping data));
        Network (sheet_call cfg Record_update (update_payload env mapping data));
        Network (sheet_call cfg Record_del (delete_payload mapping data)) ],
      Returned {| Statistics.added := length inserted;
                  Statistics.updated := length updated;
                  Statistics.deleted := length to_delete |} ).
Proof.
  intros mapping to_delete Hres Hentries Hadd Hupd Hdel.
  assert (∀ name, name ∈ mapping.*1 ↔
            ∃ record, record ∈ res ∧
                      row_name (FIELD_DNS_NAME env) record = Some name) as Hkeys.
  { intros name. unfold mapping.
    rewrite Object_fromEntries_keys, first_occurrences_elem.
    by apply name_id_entries_keys. }
  split; [| split; [| split]].
  - apply records_to_delete_NoDup. unfold mapping.
    rewrite Object_fromEntries_keys. apply first_occurrences_NoDup.
  - intros name. unfold to_delete. rewrite records_to_delete_elem, Hkeys.
    unfold dns_record_names. rewrite list_elem_of_fmap.
    split; (intros [Hrow Hnone]; split; [done |]).
    + intros (r & Hr & Hn). apply Hnone. by exists r.
    + intros (r & Hn & Hr). apply Hnone. by exists r.
  - unfold delete_payload. fold to_delete.
    apply Forall2_fmap_r, Forall_Forall2_diag, Forall_forall.
    intros name [Hin _]%records_to_delete_elem.
    apply obj_own_is_Some in Hin as [id Hid]. unfold compose.
    unfold obj_get. rewrite Hid.
    apply Object_fromEntries_own in Hid.
    apply name_id_entries_spec in Hentries.
    apply list_elem_of_lookup_1 in Hid as [i Hi].
    destruct (Forall2_lookup_r _ _ _ _ _ Hentries Hi) as (record & Hr & Hn & Hv).
    exists record. simpl in *. split; [by eapply list_elem_of_lookup_2 |].
    split; [done | by rewrite Hv].
  - unfold process_wedocs. rewrite Hres. simpl. rewrite Hentries. simpl.
    fold mapping. rewrite Hadd. simpl. rewrite Hupd. simpl.
    rewrite remove_irrelevant_records_true. rewrite Hdel. done.
Qed.

Lemma process_wedocs_deleted_witness :
  let rows := [ Sample.row "r1" "a.com" "1.1.1.1";
                Sample.row "r2" "c.com" "3.3.3.3" ] in
  let data := [ Normalized.mk "a.com" "1.1.1.1";
                Normalized.mk "d.com" "4.4.4.4" ] in
  let mapping := Object_fromEntries [ ("a.com", "r1"); ("c.com", "r2") ] in
  "c.com" ∈ records_to_delete mapping data ∧
  ("a.com" ∉ records_to_delete mapping data) ∧
  ("d.com" ∉ records_to_delete mapping data) ∧
  network_calls
    (process_wedocs Sample.cfg (Sample.env "true") (Sample.world [] rows)
       data).1 !! 3
  = Some (Record_del "corp" "secret" "doc" "sheet" [ VString "r2" ]) ∧
  (process_wedocs Sample.cfg (Sample.env "true") (Sample.world [] rows) data).2
  = Returned {| Statistics.added := 1; Statistics.updated := 1;
                Statistics.deleted := 1 |}.
Proof.
  intros rows data mapping.
  destruct (process_wedocs_deleted Sample.cfg (Sample.env "true")
              (Sample.world [] rows) data rows
              [ ("a.com", "r1"); ("c.com", "r2") ]
              [ Sample.row "" "" "" ] [ Sample.row "" "" "" ])
    as (_ & Hdel & _ & Hrun);
    [reflexivity | by vm_compute | by vm_compute | by vm_compute
    | reflexivity |].
  split; [| split; [| split; [| split]]].
  - apply Hdel. split.
    + exists (Sample.row "r2" "c.com" "3.3.3.3").
      split; [right; left | by vm_compute].
    + intros (r & Hr & Hn). unfold data in Hr.
      rewrite !elem_of_cons, elem_of_nil in Hr.
      destruct Hr as [->|[->|[]]]; discriminate.
  - intros [_ Hnone]%Hdel. apply Hnone.
    exists (Normalized.mk "a.com" "1.1.1.1"). split; [left | done].
  - intros [_ Hnone]%Hdel. apply Hnone.
    exists (Normalized.mk "d.com" "4.4.4.4"). split; [right; left | done].
  - rewrite Hrun. reflexivity.
  - rewrite Hrun. reflexivity.
Defined.

(** ** The configuration check *)

Lemma load_config_None (env : gmap string string) :
  load_config env = None ↔ ∃ k, k ∈ mandatory ∧ falsy (env !! k) = true.
Proof.
  unfold load_config.
  destruct (existsb _ mandatory) eqn:Hex.
  - split; [intros _ | done].
    apply existsb_exists in Hex as (k & Hk & Hf).
    exists k. by rewrite list_elem_of_In.
  - split; [done | intros (k & Hk & Hf)].
    assert (existsb (λ k, falsy (env !! k)) mandatory = true) as Hex'.
    { apply existsb_exists. exists k. by rewrite <- list_elem_of_In. }
    congruence.
Qed.

(** The check lets a complete environment through. *)
Lemma load_config_sample : load_config (Sample.env "true") = Some Sample.cfg.
Proof. by vm_compute. Qed.

(** C9. When one of the eleven mandatory variables is absent, the run
    prints its message and exits with the code -1, which is non-zero also
    as the eight-bit status the system reports; no request leaves the
    process and the entry point is never entered. *)
Theorem missing_configuration_exits (setEndpoint : string → option exn)
    (env : gmap string string) (world : remote) (k : string) :
  k ∈ mandatory → env !! k = None →
  ∃ code, run setEndpoint env world =
            ([Console_info "appwrite envs not configured!"], Exited code) ∧
          code ≠ 0%Z ∧ (code mod 256)%Z ≠ 0%Z ∧
          network_calls (run setEndpoint env world).1 = [].
Proof.
  intros Hk Hnone. unfold run.
  assert (load_config env = None) as ->.
  { apply load_config_None. exists k. split; [done |]. by rewrite Hnone. }
  exists (-1)%Z. by split; [| split; [| split]].
Qed.

Lemma missing_configuration_exits_witness :
  ∃ code, run Sample.setEndpoint (delete "SECRET" (Sample.env "true"))
              (Sample.world [] []) =
            ([Console_info "appwrite envs not configured!"], Exited code) ∧
          code ≠ 0%Z ∧ (code mod 256)%Z ≠ 0%Z ∧
          network_calls
            (run Sample.setEndpoint (delete "SECRET" (Sample.env "true"))
               (Sample.world [] [])).1
          = [].
Proof.
  apply (missing_configuration_exits _ _ _ "SECRET").
  - unfold mandatory. repeat constructor.
  - by vm_compute.
Defined.

(** ** The normaliser on a store *)

Section store_facts.
Implicit Types (h : gmap positive Store.object) (l : positive).

Lemma heap_bind_eq {A B : Type} (m : Store.heap_prog A)
    (f : A → Store.heap_prog B) h :
  (m ≫= f) h = match m h with Some (a, h') => f a h' | None => None end.
Proof. reflexivity. Qed.

Lemma get_resource_eq h l :
  Store.get_resource l h =
  match Store.resource_at h l with Some r => Some (r, h) | None => None end.
Proof.
  unfold Store.get_resource, Store.resource_at, Store.load.
  rewrite heap_bind_eq. by destruct (h !! l) as [[]|].
Qed.

Lemma get_simple_eq h l :
  Store.get_simple l h =
  match Store.simple_at h l with Some r => Some (r, h) | None => None end.
Proof.
  unfold Store.get_simple, Store.simple_at, Store.load.
  rewrite heap_bind_eq. by destruct (h !! l) as [[]|].
Qed.

Lemma get_array_eq h l :
  Store.get_array l h =
  match h !! l with
  | Some (Store.Array_obj elems) => Some (elems, h)
  | _ => None
  end.
Proof.
  unfold Store.get_array, Store.load.
  rewrite heap_bind_eq. by destruct (h !! l) as [[]|].
Qed.

Lemma alloc_eq (o : Store.object) h :
  Store.alloc o h = Some (fresh (dom h), <[fresh (dom h) := o]> h).
Proof. reflexivity. Qed.

Lemma fresh_lookup h : h !! fresh (dom h) = None.
Proof. apply not_elem_of_dom, is_fresh. Qed.

Lemma alloc_subseteq (o : Store.object) h : h ⊆ <[fresh (dom h) := o]> h.
Proof. apply insert_subseteq, fresh_lookup. Qed.

Lemma resource_at_weaken h h' l (r : RESOURCE.t) :
  h ⊆ h' → Store.resource_at h l = Some r → Store.resource_at h' l = Some r.
Proof.
  unfold Store.resource_at. intros Hsub.
  destruct (h !! l) as [o|] eqn:Hl; [| done].
  by rewrite (lookup_weaken _ _ _ _ Hl Hsub).
Qed.

Lemma simple_at_Some h l (r : Normalized.t) :
  Store.simple_at h l = Some r ↔ h !! l = Some (Store.Simple_obj r).
Proof.
  unfold Store.simple_at. destruct (h !! l) as [[]|]; naive_solver.
Qed.

Lemma resources_at_Some h l (rs : list RESOURCE.t) :
  Store.resources_at h l = Some rs ↔
  ∃ elems, h !! l = Some (Store.Array_obj elems) ∧
           Forall2 (λ l r, Store.resource_at h l = Some r) elems rs.
Proof.
  unfold Store.resources_at. destruct (h !! l) as [[| |elems]|].
  1,2,4: split; [done | by intros (? & ? & _)].
  rewrite mapM_Some. split; [by eexists | by intros (? & [= <-] & ?)].
Qed.

Lemma simples_at_Some h l (rs : list Normalized.t) :
  Store.simples_at h l = Some rs ↔
  ∃ elems, h !! l = Some (Store.Array_obj elems) ∧
           Forall2 (λ l r, h !! l = Some (Store.Simple_obj r)) elems rs.
Proof.
  unfold Store.simples_at. destruct (h !! l) as [[| |elems]|].
  1,2,4: split; [done | by intros (? & ? & _)].
  rewrite mapM_Some. split.
  - intros H. eexists; split; [done |].
    eapply Forall2_impl; [exact H |]. intros ? ?. by rewrite simple_at_Some.
  - intros (? & [= <-] & H).
    eapply Forall2_impl; [exact H |]. intros ? ?. by rewrite simple_at_Some.
Qed.

(** Filtering reads the elements, keeps the store as it is, and returns the
    references of the records that pass. *)
Lemma filter_elems_spec (P : RESOURCE.t → Prop) `{!∀ r, Decision (P r)}
    h (elems : list positive) (rs : list RESOURCE.t) :
  Forall2 (λ l r, Store.resource_at h l = Some r) elems rs →
  ∃ kept, Store.filter_elems P elems h = Some (kept, h) ∧
          Forall2 (λ l r, Store.resource_at h l = Some r) kept (filter P rs).
Proof.
  induction 1 as [|l r elems rs Hl _ (kept & Hrun & Hkept)]; simpl.
  - by exists [].
  - rewrite heap_bind_eq, get_resource_eq, Hl, heap_bind_eq, Hrun.
    exists (if decide (P r) then l :: kept else kept). split; [done |].
    rewrite filter_cons. destruct (decide (P r)); [by constructor | done].
Qed.

Lemma array_filter_spec (P : RESOURCE.t → Prop) `{!∀ r, Decision (P r)}
    h (arr : positive) (rs : list RESOURCE.t) :
  Store.resources_at h arr = Some rs →
  ∃ arr' h', Store.array_filter P arr h = Some (arr', h') ∧ h ⊆ h' ∧
             Store.resources_at h' arr' = Some (filter P rs).
Proof.
  intros (elems & Harr & Helems)%resources_at_Some.
  destruct (filter_elems_spec P h elems rs Helems) as (kept & Hrun & Hkept).
  unfold Store.array_filter.
  rewrite heap_bind_eq, get_array_eq, Harr, heap_bind_eq, Hrun, alloc_eq.
  do 2 eexists. split; [done |]. split; [apply alloc_subseteq |].
  apply resources_at_Some. exists kept. rewrite lookup_insert_eq.
  split; [done |].
  eapply Forall2_impl; [exact Hkept |]. intros l r.
  apply resource_at_weaken, alloc_subseteq.
Qed.

(** Mapping allocates one new object per element and touches nothing else. *)
Lemma map_elems_spec (elems : list positive) :
  ∀ (rs : list RESOURCE.t) h,
    Forall2 (λ l r, Store.resource_at h l = Some r) elems rs →
    ∃ mapped h', Store.map_elems elems h = Some (mapped, h') ∧ h ⊆ h' ∧
      Forall2 (λ l r, h' !! l = Some (Store.Simple_obj r))
              mapped (simple_record <$> rs) ∧
      NoDup mapped ∧ ∀ l, l ∈ mapped → l ∉ dom h.
Proof.
  induction elems as [|l elems IH]; intros rs h Hrs.
  - apply Forall2_nil_inv_l in Hrs as ->. exists [], h. simpl.
    split; [done |]. split; [done |]. split; [constructor |].
    split; [constructor | by intros ? ?%elem_of_nil].
  - apply Forall2_cons_inv_l in Hrs as (r & rs' & Hl & Hrs' & ->).
    set (l' := fresh (dom h)).
    set (h1 := <[l' := Store.Simple_obj (simple_record r)]> h).
    assert (h ⊆ h1) as Hsub1 by apply alloc_subseteq.
    destruct (IH rs' h1) as (mapped & h' & Hrun & Hsub & Hmapped & Hnd & Hfresh).
    { eapply Forall2_impl; [exact Hrs' |]. intros ? ?.
      by apply resource_at_weaken. }
    exists (l' :: mapped), h'. simpl Store.map_elems.
    rewrite heap_bind_eq, get_resource_eq, Hl, heap_bind_eq, alloc_eq.
    fold l' h1. rewrite heap_bind_eq, Hrun.
    split; [done |]. split; [by etrans |]. split; [| split].
    + rewrite fmap_cons. constructor; [| done].
      eapply lookup_weaken; [| exact Hsub]. apply lookup_insert_eq.
    + constructor; [| done]. intros Hin%Hfresh. apply Hin.
      apply elem_of_dom. exists (Store.Simple_obj (simple_record r)).
      apply lookup_insert_eq.
    + intros l0 [->|Hin]%elem_of_cons; [apply is_fresh |].
      intros Hdom. apply (Hfresh _ Hin).
      apply elem_of_dom. apply elem_of_dom in Hdom as [o Ho].
      exists o. by eapply lookup_weaken.
Qed.

Lemma find_elem_spec (n : string) h (out : list positive)
    (acc : list Normalized.t) :
  Forall2 (λ l r, h !! l = Some (Store.Simple_obj r)) out acc →
  Store.find_elem n out h =
  Some (match list_find (λ r, Normalized.name r = n) acc with
        | Some (i, _) => out !! i
        | None => None
        end, h).
Proof.
  induction 1 as [|l r out acc Hl _ IH]; [done |].
  simpl Store.find_elem. simpl list_find.
  rewrite heap_bind_eq, get_simple_eq.
  rewrite (proj2 (simple_at_Some h l r) Hl).
  destruct (decide (Normalized.name r = n)); [done |].
  rewrite IH. by destruct (list_find _ acc) as [[i e]|].
Qed.

(** One turn of the loop against the pure [merge_record].  It writes either
    to the entry of [records_data] it found or to [records_data] itself. *)
Lemma merge_step_spec h (rd l : positive) (out : list positive)
    (acc : list Normalized.t) (r : Normalized.t) :
  h !! rd = Some (Store.Array_obj out) →
  Forall2 (λ l r, h !! l = Some (Store.Simple_obj r)) out acc →
  h !! l = Some (Store.Simple_obj r) →
  NoDup out → l ∉ out →
  ∃ h' out', Store.merge_step rd l h = Some ((), h') ∧
    h' !! rd = Some (Store.Array_obj out') ∧
    Forall2 (λ l r, h' !! l = Some (Store.Simple_obj r))
            out' (merge_record acc r) ∧
    (out' = out ∨ out' = out ++ [l]) ∧
    ∀ l0, l0 ≠ rd → l0 ∉ out → h' !! l0 = h !! l0.
Proof.
  intros Hrd Hout Hl Hnd Hnotin.
  unfold Store.merge_step, merge_record.
  rewrite heap_bind_eq, get_simple_eq, (proj2 (simple_at_Some h l r) Hl).
  rewrite heap_bind_eq, get_array_eq, Hrd.
  rewrite heap_bind_eq, (find_elem_spec _ h out acc Hout).
  destruct (list_find _ acc) as [[i e]|] eqn:Hfind.
  - apply list_find_Some in Hfind as (Hi & _ & _).
    destruct (Forall2_lookup_r _ _ _ _ _ Hout Hi) as (l' & Hl' & Hle).
    rewrite Hl'.
    rewrite heap_bind_eq, get_simple_eq, (proj2 (simple_at_Some h l' e) Hle).
    unfold Store.store. rewrite Hle.
    assert (l' ≠ rd) as Hne by (intros ->; congruence).
    eexists _, out. split; [done |].
    split; [by rewrite lookup_insert_ne |]. split; [| split; [by left |]].
    + apply Forall2_same_length_lookup. split.
      { rewrite length_insert. by eapply Forall2_length. }
      intros j lj rj Hj Hrj. destruct (decide (j = i)) as [->|Hji].
      * rewrite list_lookup_insert_eq in Hrj by (by eapply lookup_lt_Some).
        simplify_eq. apply lookup_insert_eq.
      * rewrite list_lookup_insert_ne in Hrj by done.
        rewrite lookup_insert_ne.
        { exact (Forall2_lookup_lr _ _ _ _ _ _ Hout Hj Hrj). }
        intros <-. apply Hji. by eapply NoDup_lookup.
    + intros l0 _ Hl0. apply lookup_insert_ne. intros <-.
      apply Hl0. by eapply list_elem_of_lookup_2.
  - unfold Store.store. rewrite Hrd.
    eexists _, (out ++ [l]). split; [done |].
    split; [apply lookup_insert_eq |]. split; [| split; [by right |]].
    + apply Forall2_app; [| constructor; [| constructor]].
      * eapply Forall2_impl; [exact Hout |]. intros l0 r0 Hl0.
        rewrite lookup_insert_ne; [done |]. intros <-. congruence.
      * rewrite lookup_insert_ne; [done |]. intros <-. congruence.
    + intros l0 Hl0 _. by apply lookup_insert_ne.
Qed.

(** The loop against the pure fold.  [records_data] only grows, by elements
    of the list being visited, and a write lands on [records_data] or on one
    of its entries. *)
Lemma merge_loop_spec (rd : positive) (elems : list positive) :
  ∀ (rs acc : list Normalized.t) (out : list positive) h,
    h !! rd = Some (Store.Array_obj out) →
    Forall2 (λ l r, h !! l = Some (Store.Simple_obj r)) out acc →
    Forall2 (λ l r, h !! l = Some (Store.Simple_obj r)) elems rs →
    NoDup (out ++ elems) →
    ∃ h' out', Store.merge_loop rd elems h = Some ((), h') ∧
      h' !! rd = Some (Store.Array_obj out') ∧
      Forall2 (λ l r, h' !! l = Some (Store.Simple_obj r))
              out' (foldl merge_record acc rs) ∧
      (∀ l, l ∈ out → l ∈ out') ∧
      (∀ l, l ∈ out' → l ∈ out ++ elems) ∧
      (∀ l0, l0 ≠ rd → l0 ∉ out' → h' !! l0 = h !! l0).
Proof.
  induction elems as [|l elems IH]; intros rs acc out h Hrd Hout Helems Hnd.
  - apply Forall2_nil_inv_l in Helems as ->. exists h, out. simpl.
    rewrite app_nil_r. by repeat split.
  - apply Forall2_cons_inv_l in Helems as (r & rs' & Hl & Hrs' & ->).
    apply NoDup_app in Hnd as (Hnd_out & Hdisj & Hnd_elems).
    apply NoDup_cons in Hnd_elems as [Hl_elems Hnd_elems].
    assert (l ∉ out) as Hl_out by (intros Hin; apply (Hdisj _ Hin); left).
    destruct (merge_step_spec h rd l out acc r)
      as (h1 & out1 & Hstep & Hrd1 & Hout1 & Hshape & Hsame1); [done .. |].
    assert (∀ x, x ∈ out → x ∈ out1) as Hgrow1.
    { intros x Hx. destruct Hshape as [->| ->]; [done |].
      apply elem_of_app. by left. }
    assert (∀ x, x ∈ out1 → x ∈ out ++ [l]) as Hbound1.
    { intros x Hx. destruct Hshape as [->| ->]; [| done].
      apply elem_of_app. by left. }
    destruct (IH rs' (merge_record acc r) out1 h1)
      as (h' & out' & Hloop & Hrd' & Hout' & Hgrow & Hbound & Hsame);
      [done | done | | |].
    { apply Forall2_same_length_lookup.
      split; [by eapply Forall2_length |]. intros j l0 r0 Hj Hr0.
      pose proof (Forall2_lookup_lr _ _ _ _ _ _ Hrs' Hj Hr0) as Hl0.
      simpl in Hl0. rewrite Hsame1; [done | |].
      - intros ->. congruence.
      - intros Hin. apply (Hdisj _ Hin). right.
        by eapply list_elem_of_lookup_2. }
    { apply NoDup_app. split; [| split; [| done]].
      - destruct Hshape as [->| ->]; [done |].
        apply NoDup_app. split; [done |].
        split; [| apply NoDup_singleton].
        intros x Hx ->%list_elem_of_singleton. done.
      - intros x [Hx| ->%list_elem_of_singleton]%Hbound1%elem_of_app Hx'.
        + apply (Hdisj _ Hx). by right.
        + done. }
    exists h', out'. simpl Store.merge_loop.
    rewrite heap_bind_eq, Hstep.
    split; [done |]. split; [done |]. split; [done |]. split; [| split].
    + intros x Hx. by apply Hgrow, Hgrow1.
    + intros x [Hx|Hx]%Hbound%elem_of_app.
      * apply Hbound1, elem_of_app in Hx as [Hx| ->%list_elem_of_singleton].
        -- apply elem_of_app. by left.
        -- apply elem_of_app. right. left.
      * apply elem_of_app. right. by right.
    + intros l0 Hne Hl0. rewrite Hsame by done. apply Hsame1; [done |].
      intros Hin. by apply Hl0, Hgrow, Hgrow1.
Qed.

Lemma array_map_spec h (arr : positive) (rs : list RESOURCE.t) :
  Store.resources_at h arr = Some rs →
  ∃ arr' mapped h', Store.array_map arr h = Some (arr', h') ∧ h ⊆ h' ∧
    (arr' ∉ dom h) ∧ h' !! arr' = Some (Store.Array_obj mapped) ∧
    Forall2 (λ l r, h' !! l = Some (Store.Simple_obj r))
            mapped (simple_record <$> rs) ∧
    NoDup mapped ∧ ∀ l, l ∈ mapped → l ∉ dom h.
Proof.
  intros (elems & Harr & Helems)%resources_at_Some.
  destruct (map_elems_spec elems rs h Helems)
    as (mapped & h1 & Hrun & Hsub & Hmapped & Hnd & Hfresh).
  unfold Store.array_map.
  rewrite heap_bind_eq, get_array_eq, Harr, heap_bind_eq, Hrun, alloc_eq.
  eexists _, mapped, _. split; [done |].
  split; [etrans; [exact Hsub | apply alloc_subseteq] |].
  split; [| split; [apply lookup_insert_eq | split; [| done]]].
  - intros Hdom. apply (is_fresh (dom h1)).
    apply elem_of_dom. apply elem_of_dom in Hdom as [o Ho].
    exists o. by eapply lookup_weaken.
  - eapply Forall2_impl; [exact Hmapped |]. intros l r Hl.
    eapply lookup_weaken; [exact Hl | apply alloc_subseteq].
Qed.

Lemma subseteq_dom_fresh h h' l : h ⊆ h' → l ∉ dom h' → l ∉ dom h.
Proof.
  intros Hsub Hl Hdom. apply Hl.
  apply elem_of_dom. apply elem_of_dom in Hdom as [o Ho].
  exists o. by eapply lookup_weaken.
Qed.

(** Everything before the loop only allocates. *)
Lemma prepare_spec h (dns_records : positive) (rs : list RESOURCE.t) :
  Store.resources_at h dns_records = Some rs →
  ∃ rd elems h1, Store.prepare dns_records h = Some ((rd, elems), h1) ∧
    h ⊆ h1 ∧ (rd ∉ dom h) ∧ h1 !! rd = Some (Store.Array_obj []) ∧
    Forall2 (λ l r, h1 !! l = Some (Store.Simple_obj r))
            elems (simple_record_data rs) ∧
    NoDup elems ∧ ∀ l, l ∈ elems → l ∉ dom h.
Proof.
  intros Hin.
  destruct (array_filter_spec (λ record, RESOURCE.is_enable record = "yes")
              h dns_records rs Hin) as (a1 & h1 & Hrun1 & Hsub1 & Ha1).
  destruct (array_filter_spec
              (λ record, RESOURCE.type record ∈ ["CNAME"; "A"; "AAAA"])
              h1 a1 _ Ha1) as (a2 & h2 & Hrun2 & Hsub2 & Ha2).
  destruct (array_map_spec h2 a2 _ Ha2)
    as (a3 & elems & h3 & Hrun3 & Hsub3 & Ha3_fresh & Ha3 & Helems & Hnd & Hfresh).
  set (rd := fresh (dom h3)).
  set (h4 := <[rd := Store.Array_obj []]> h3).
  assert (h3 ⊆ h4) as Hsub4 by apply alloc_subseteq.
  assert (h ⊆ h3) as Hsub03
    by (etrans; [exact Hsub1 | etrans; [exact Hsub2 | exact Hsub3]]).
  exists rd, elems, h4. unfold Store.prepare.
  rewrite heap_bind_eq, Hrun1, heap_bind_eq, Hrun2, heap_bind_eq, Hrun3.
  rewrite heap_bind_eq, alloc_eq. fold rd h4.
  rewrite heap_bind_eq, get_array_eq.
  rewrite (lookup_weaken _ _ _ _ Ha3 Hsub4).
  split; [done |]. split; [by etrans |].
  split; [| split; [apply lookup_insert_eq | split; [| split; [done |]]]].
  - eapply subseteq_dom_fresh; [exact Hsub03 | apply is_fresh].
  - eapply Forall2_impl; [exact Helems |]. intros l r Hl.
    eapply lookup_weaken; [exact Hl | exact Hsub4].
  - intros l Hl. eapply subseteq_dom_fresh; [| by apply Hfresh].
    etrans; [exact Hsub1 | exact Hsub2].
Qed.

End store_facts.

(** C10. Run on a store that holds the input array and its records,
    [process_dns_records] terminates and leaves every object of that store,
    the input array and each input record with its four fields, exactly as
    it was.  The loop writes only to [records_data] and to the entries of
    [records_data], all of them objects created during the call, and the
    array it returns reads back as the result of the pure normaliser. *)
Theorem process_dns_records_frame (h : gmap positive Store.object)
    (dns_records : positive) (rs : list RESOURCE.t) :
  Store.resources_at h dns_records = Some rs →
  ∃ records_data elems h1 h' out,
    Store.prepare dns_records h = Some ((records_data, elems), h1) ∧
    Store.merge_loop records_data elems h1 = Some ((), h') ∧
    Store.process_dns_records dns_records h = Some (records_data, h') ∧
    h ⊆ h1 ∧ h ⊆ h' ∧
    Store.resources_at h' dns_records = Some rs ∧
    h' !! records_data = Some (Store.Array_obj out) ∧
    (records_data ∉ dom h) ∧ (∀ l, l ∈ out → l ∉ dom h) ∧
    (∀ l, l ≠ records_data → l ∉ out → h' !! l = h1 !! l) ∧
    Store.simples_at h' records_data = Some (process_dns_records rs).
Proof.
  intros Hin.
  destruct (prepare_spec h dns_records rs Hin)
    as (rd & elems & h1 & Hprep & Hsub1 & Hrd_fresh & Hrd & Helems & Hnd & Hfresh).
  destruct (merge_loop_spec rd elems (simple_record_data rs) [] [] h1)
    as (h' & out & Hloop & Hrd' & Hout & _ & Hbound & Hsame);
    [done | constructor | done | done |].
  assert (h ⊆ h') as Hsub.
  { apply map_subseteq_spec. intros l o Hl.
    rewrite Hsame; [by eapply lookup_weaken | |].
    - intros ->. apply Hrd_fresh. apply elem_of_dom. by eexists.
    - intros Hl_out%Hbound. apply (Hfresh _ Hl_out).
      apply elem_of_dom. by eexists. }
  exists rd, elems, h1, h', out.
  split; [done |]. split; [done |]. split.
  { unfold Store.process_dns_records.
    rewrite heap_bind_eq, Hprep, heap_bind_eq. simpl. by rewrite Hloop. }
  split; [done |]. split; [done |]. split.
  { apply resources_at_Some in Hin as (ins & Harr & Hins).
    apply resources_at_Some. exists ins.
    split; [by eapply lookup_weaken |].
    eapply Forall2_impl; [exact Hins |]. intros l r.
    by apply resource_at_weaken. }
  split; [done |]. split; [done |]. split.
  { intros l Hl%Hbound. by apply Hfresh. }
  split; [done |].
  apply simples_at_Some. by exists out.
Qed.

Lemma process_dns_records_frame_witness :
  let h : gmap positive Store.object :=
    list_to_map
      [ (1%positive, Store.Resource_obj (RESOURCE.mk "a.com." "A" "1.1.1.1" "yes"));
        (2%positive, Store.Resource_obj (RESOURCE.mk "a.com." "AAAA" "::1" "yes"));
        (3%positive, Store.Array_obj [1%positive; 2%positive; 1%positive]) ] in
  ∃ records_data h',
    Store.process_dns_records 3%positive h = Some (records_data, h') ∧
    h ⊆ h' ∧
    Store.simples_at h' records_data =
      Some [ Normalized.mk "a.com" "1.1.1.1,::1,1.1.1.1" ].
Proof.
  intros h.
  destruct (process_dns_records_frame h 3%positive
              [ RESOURCE.mk "a.com." "A" "1.1.1.1" "yes";
                RESOURCE.mk "a.com." "AAAA" "::1" "yes";
                RESOURCE.mk "a.com." "A" "1.1.1.1" "yes" ])
    as (rd & _ & _ & h' & _ & _ & _ & Hrun & _ & Hsub & _ & _ & _ & _ & _ & Hout);
    [by vm_compute |].
  exists rd, h'. split; [exact Hrun |]. split; [exact Hsub |]. exact Hout.
Defined.

(** ** The scenarios of the specification, run on the model *)

Example first_occurrences_example :
  first_occurrences ["b"; "a"; "b"; "c"; "a"] = ["b"; "a"; "c"].
Proof. by vm_compute. Qed.

Example scenario_normalise :
  process_dns_records
    [ RESOURCE.mk "a.com." "A" "1.1.1.1" "yes";
      RESOURCE.mk "a.com." "AAAA" "::1" "yes";
      RESOURCE.mk "b.com." "A" "2.2.2.2" "no" ] =
  [ Normalized.mk "a.com" "1.1.1.1,::1" ].
Proof. by vm_compute. Qed.

Example scenario_reconcile :
  let rows := [ Sample.row "r1" "a.com" "1.1.1.1";
                Sample.row "r2" "c.com" "3.3.3.3" ] in
  let data := [ Normalized.mk "a.com" "1.1.1.1";
                Normalized.mk "d.com" "4.4.4.4" ] in
  let mapping := Object_fromEntries [ ("a.com", "r1"); ("c.com", "r2") ] in
  records_to_insert mapping data = [ Normalized.mk "d.com" "4.4.4.4" ] ∧
  records_to_update mapping data = [ Normalized.mk "a.com" "1.1.1.1" ] ∧
  records_to_delete mapping data = [ "c.com" ] ∧
  (process_wedocs Sample.cfg (Sample.env "true") (Sample.world [] rows) data).2
  = Returned {| Statistics.added := 1; Statistics.updated := 1;
                Statistics.deleted := 1 |}.
Proof. by vm_compute. Qed.

(** A complete environment gets past the check and the run makes its five
    requests in order. *)
Example scenario_run :
  let resources := [ RESOURCE.mk "a.com." "A" "1.1.1.1" "yes" ] in
  let result :=
    run Sample.setEndpoint (Sample.env "true") (Sample.world resources []) in
  network_calls result.1 =
    [ Zdns_shared_rrs_get "https://zdns.example" "user" "password";
      Record_records "corp" "secret" "doc" "sheet";
      Record_add "corp" "secret" "doc" "sheet"
        [ {| OutRow.record_id := VString "a.com";
             OutRow.values := row_values (Sample.env "true")
                                (Normalized.mk "a.com" "1.1.1.1") |} ];
      Record_update "corp" "secret" "doc" "sheet" [];
      Record_del "corp" "secret" "doc" "sheet" [] ] ∧
  result.2 = Returned ().
Proof. by vm_compute. Qed.

(** [Object.keys] puts array indices first, in numeric order. *)
Example Object_keys_example :
  Object_keys (Object_fromEntries
                 [ ("b.com", "r1"); ("10", "r2"); ("a.com", "r3"); ("2", "r4");
                   ("b.com", "r5"); ("01", "r6") ]) =
  [ "2"; "10"; "b.com"; "a.com"; "01" ].
Proof. by vm_compute. Qed.

(** * Further properties of the normaliser *)

Lemma string_snoc_inv (s : string) :
  s ≠ "" → ∃ s' c, s = s' +:+ String c "".
Proof.
  induction s as [|a s IH]; [done | intros _].
  destruct s as [|b s].
  - by exists "", a.
  - destruct IH as (s' & c & Hs); [done |].
    exists (String a s'), c. by rewrite string_app_cons, <- Hs.
Qed.

Lemma first_occurrences_id (l : list string) :
  NoDup l → first_occurrences l = l.
Proof.
  induction 1 as [|n l Hn _ IH]; simpl; [done |].
  rewrite IH. f_equal. clear IH. induction l as [|m l IHl]; [done |].
  apply not_elem_of_cons in Hn as [Hne Hn].
  rewrite filter_cons_True by congruence. f_equal. by apply IHl.
Qed.

Lemma first_occurrences_length (l : list string) :
  (length (first_occurrences l) ≤ length l)%nat.
Proof. apply sublist_length, first_occurrences_sublist. Qed.

Lemma first_occurrences_full_length (l : list string) :
  length (first_occurrences l) = length l → NoDup l.
Proof.
  induction l as [|n l IH]; simpl; [constructor |]. intros Hlen.
  pose proof (length_filter (λ m, m ≠ n) (first_occurrences l)) as Hf.
  pose proof (first_occurrences_length l) as Hl.
  constructor; [| apply IH; lia].
  intros Hin%first_occurrences_elem.
  pose proof (length_filter_lt (λ m, m ≠ n) _ n Hin) as Hlt.
  assert (¬ n ≠ n) as Hnn by (intros H; by apply H).
  specialize (Hlt Hnn). lia.
Qed.

Lemma first_occurrences_app (a b : list string) :
  first_occurrences (a ++ b) =
  first_occurrences a ++ filter (λ m, m ∉ a) (first_occurrences b).
Proof.
  induction b as [|x b IH] using rev_ind.
  - rewrite app_nil_r. simpl. by rewrite app_nil_r.
  - rewrite app_assoc, !first_occurrences_snoc, IH.
    destruct (decide (x ∈ b)) as [Hb|Hb].
    + by rewrite decide_True by (apply elem_of_app; by right).
    + rewrite filter_app. destruct (decide (x ∈ a)) as [Ha|Ha].
      * rewrite decide_True by (apply elem_of_app; by left).
        rewrite filter_cons_False by (intros H; by apply H).
        by rewrite filter_nil, app_nil_r.
      * rewrite decide_False by (rewrite elem_of_app; tauto).
        by rewrite filter_cons_True, filter_nil, app_assoc by done.
Qed.

Lemma simple_record_data_app (l1 l2 : list RESOURCE.t) :
  simple_record_data (l1 ++ l2) =
  simple_record_data l1 ++ simple_record_data l2.
Proof.
  unfold simple_record_data. by rewrite specified_type_records_app, fmap_app.
Qed.

Lemma specified_type_records_elem (dns_records : list RESOURCE.t)
    (record : RESOURCE.t) :
  record ∈ specified_type_records dns_records ↔
  record ∈ dns_records ∧ RESOURCE.is_enable record = "yes" ∧
  RESOURCE.type record ∈ ["CNAME"; "A"; "AAAA"].
Proof.
  unfold specified_type_records, enabled_records.
  rewrite !list_elem_of_filter. tauto.
Qed.

Lemma merge_records_NoDup_id (simple : list Normalized.t) :
  NoDup (dns_record_names simple) → merge_records simple = simple.
Proof.
  induction simple as [|r simple IH] using rev_ind; [done |].
  unfold dns_record_names. rewrite fmap_app, NoDup_app.
  intros (Hnd & Hdisj & _).
  rewrite merge_records_snoc, IH by done.
  rewrite merge_record_spec by done.
  rewrite decide_False; [done |].
  intros Hin. apply (Hdisj _ Hin). simpl. left.
Qed.

(** X1. The renaming of line 91 removes the last code unit of the name,
    whatever that unit is; the empty name stays empty. *)
Theorem name_without_suffix_drops_last :
  (∀ (s : string) (c : ascii), name_without_suffix (s +:+ String c "") = s) ∧
  name_without_suffix "" = "" ∧
  (∀ s : string,
     String.length (name_without_suffix s) = String.length s - 1) ∧
  (∀ s : string, s ≠ "" →
     ∃ c, s = name_without_suffix s +:+ String c "").
Proof.
  split; [apply name_without_suffix_snoc |]. split; [done |]. split.
  - intros s. destruct (decide (s = "")) as [->|Hs]; [done |].
    destruct (string_snoc_inv s Hs) as (s' & c & ->).
    rewrite name_without_suffix_snoc, string_length_app. simpl. lia.
  - intros s Hs. destruct (string_snoc_inv s Hs) as (s' & c & ->).
    exists c. by rewrite name_without_suffix_snoc.
Qed.

Lemma name_without_suffix_drops_last_witness :
  ∃ c, "a.com." = name_without_suffix "a.com." +:+ String c "".
Proof.
  apply (proj2 (proj2 (proj2 name_without_suffix_drops_last))). discriminate.
Defined.

(** X2. Two surviving records whose names differ only in their last character
    are merged into one entry: the renaming does not check that the
    character it removes is a dot. *)
Theorem names_differing_in_last_character_merge
    (s type1 type2 value1 value2 : string) (c1 c2 : ascii) :
  type1 ∈ ["CNAME"; "A"; "AAAA"] → type2 ∈ ["CNAME"; "A"; "AAAA"] →
  process_dns_records
    [ RESOURCE.mk (s +:+ String c1 "") type1 value1 "yes";
      RESOURCE.mk (s +:+ String c2 "") type2 value2 "yes" ] =
  [ Normalized.mk s (value1 +:+ "," +:+ value2) ].
Proof.
  intros H1 H2.
  unfold process_dns_records, simple_record_data, specified_type_records,
    enabled_records.
  rewrite !filter_cons_True, !filter_nil by done.
  unfold merge_records, simple_record. simpl.
  rewrite !name_without_suffix_snoc.
  change (merge_record [] ?r) with [r].
  rewrite merge_record_cons. simpl. by rewrite decide_True by done.
Qed.

Lemma names_differing_in_last_character_merge_witness :
  process_dns_records
    [ RESOURCE.mk ("a.com" +:+ String "." "") "A" "1.1.1.1" "yes";
      RESOURCE.mk ("a.com" +:+ String "x" "") "A" "2.2.2.2" "yes" ] =
  [ Normalized.mk "a.com" ("1.1.1.1" +:+ "," +:+ "2.2.2.2") ].
Proof.
  apply names_differing_in_last_character_merge; repeat constructor.
Defined.

(** X3. A name is in the result exactly when some enabled record of an
    accepted type has it as its shortened name: a name all of whose records
    are filtered out does not appear. *)
Theorem process_dns_records_name_elem (dns_records : list RESOURCE.t)
    (n : string) :
  n ∈ dns_record_names (process_dns_records dns_records) ↔
  ∃ record, record ∈ dns_records ∧ RESOURCE.is_enable record = "yes" ∧
            RESOURCE.type record ∈ ["CNAME"; "A"; "AAAA"] ∧
            name_without_suffix (RESOURCE.name record) = n.
Proof.
  rewrite process_dns_records_closed_form, dns_record_names_merged.
  rewrite first_occurrences_elem, simple_record_data_names.
  rewrite list_elem_of_fmap. split.
  - intros (record & -> & (? & ? & ?)%specified_type_records_elem). eauto 6.
  - intros (record & ? & ? & ? & <-). exists record.
    split; [done |]. by apply specified_type_records_elem.
Qed.

(** X4. The result is never longer than the filtered input, which is never
    longer than the input; it is as long as the filtered input exactly when
    the shortened names are pairwise distinct, and then no record is merged:
    the result is the renamed filtered input itself. *)
Theorem process_dns_records_length (dns_records : list RESOURCE.t) :
  (length (process_dns_records dns_records)
     ≤ length (specified_type_records dns_records))%nat ∧
  (length (specified_type_records dns_records) ≤ length dns_records)%nat ∧
  (length (process_dns_records dns_records)
     = length (specified_type_records dns_records) ↔
   NoDup (dns_record_names (simple_record_data dns_records))) ∧
  (NoDup (dns_record_names (simple_record_data dns_records)) →
   process_dns_records dns_records = simple_record_data dns_records).
Proof.
  assert (length (process_dns_records dns_records) =
          length (first_occurrences
                    (dns_record_names (simple_record_data dns_records))))
    as Hlen by (by rewrite process_dns_records_closed_form, length_fmap).
  assert (length (dns_record_names (simple_record_data dns_records)) =
          length (specified_type_records dns_records)) as Hlen'.
  { unfold dns_record_names, simple_record_data. by rewrite !length_fmap. }
  split; [| split; [| split]].
  - rewrite Hlen, <- Hlen'. apply first_occurrences_length.
  - unfold specified_type_records, enabled_records.
    etrans; apply length_filter.
  - rewrite Hlen, <- Hlen'. split; [apply first_occurrences_full_length |].
    intros Hnd. by rewrite first_occurrences_id.
  - apply merge_records_NoDup_id.
Qed.

Lemma process_dns_records_length_witness :
  process_dns_records
    [ RESOURCE.mk "a.com." "A" "1.1.1.1" "yes";
      RESOURCE.mk "b.com." "CNAME" "a.com." "yes" ] =
  simple_record_data
    [ RESOURCE.mk "a.com." "A" "1.1.1.1" "yes";
      RESOURCE.mk "b.com." "CNAME" "a.com." "yes" ].
Proof.
  apply (proj2 (proj2 (proj2 (process_dns_records_length _)))).
  apply (bool_decide_unpack _). by vm_compute.
Defined.

(** X5. Processing a longer input continues the loop where the shorter input
    left it: the entries already there keep their places, and those whose
    name does not occur in the added records are untouched. *)
Theorem process_dns_records_app (l1 l2 : list RESOURCE.t) :
  process_dns_records (l1 ++ l2) =
    foldl merge_record (process_dns_records l1) (simple_record_data l2) ∧
  dns_record_names (process_dns_records l1)
    `prefix_of` dns_record_names (process_dns_records (l1 ++ l2)) ∧
  (∀ r, r ∈ process_dns_records l1 →
        Normalized.name r ∉ dns_record_names (simple_record_data l2) →
        r ∈ process_dns_records (l1 ++ l2)).
Proof.
  split; [| split].
  - unfold process_dns_records, merge_records.
    by rewrite simple_record_data_app, foldl_app.
  - rewrite !process_dns_records_closed_form, !dns_record_names_merged.
    rewrite simple_record_data_app.
    unfold dns_record_names at 2. rewrite fmap_app, first_occurrences_app.
    by apply prefix_app_r.
  - intros r. rewrite !process_dns_records_closed_form.
    rewrite !list_elem_of_fmap. intros (n & -> & Hn) Hnot. simpl in Hnot.
    exists n. split.
    + unfold merged_entry. f_equal. unfold rdata_of.
      rewrite simple_record_data_app, filter_app, fmap_app.
      assert (filter (λ r, Normalized.name r = n) (simple_record_data l2) = [])
        as ->; [| by rewrite app_nil_r].
      apply (proj2 (rdata_of_nil_iff n (simple_record_data l2))) in Hnot.
      unfold rdata_of in Hnot. by apply fmap_nil_inv in Hnot.
    + rewrite simple_record_data_app. unfold dns_record_names.
      rewrite fmap_app, first_occurrences_app. apply elem_of_app. by left.
Qed.

Lemma process_dns_records_app_witness :
  Normalized.mk "a.com" "1.1.1.1" ∈
  process_dns_records
    ([ RESOURCE.mk "a.com." "A" "1.1.1.1" "yes" ] ++
     [ RESOURCE.mk "b.com." "A" "2.2.2.2" "yes" ]).
Proof.
  apply (proj2 (proj2 (process_dns_records_app _ _))).
  - apply (bool_decide_unpack _). by vm_compute.
  - apply (bool_decide_unpack _). by vm_compute.
Defined.

(** X6. The type of a record matters only through the second filter: two
    inputs that agree record by record on name, value and enabled flag, and
    on whether the type is accepted, give the same result. *)
Theorem process_dns_records_type_discarded (l l' : list RESOURCE.t) :
  Forall2 (λ r r', RESOURCE.name r = RESOURCE.name r' ∧
                   RESOURCE.rdata r = RESOURCE.rdata r' ∧
                   RESOURCE.is_enable r = RESOURCE.is_enable r' ∧
                   (RESOURCE.type r ∈ ["CNAME"; "A"; "AAAA"] ↔
                    RESOURCE.type r' ∈ ["CNAME"; "A"; "AAAA"])) l l' →
  process_dns_records l = process_dns_records l'.
Proof.
  intros H. unfold process_dns_records. f_equal.
  induction H as [|r r' l l' (Hn & Hv & He & Ht) _ IH]; [done |].
  change (r :: l) with ([r] ++ l). change (r' :: l') with ([r'] ++ l').
  rewrite !simple_record_data_app, IH. f_equal.
  unfold simple_record_data, specified_type_records, enabled_records.
  rewrite (filter_cons _ r), (filter_cons _ r'), He.
  destruct (decide (RESOURCE.is_enable r' = "yes")); [| done].
  rewrite (filter_cons _ r), (filter_cons _ r').
  destruct (decide (RESOURCE.type r ∈ _)) as [Hin|Hin];
    destruct (decide (RESOURCE.type r' ∈ _)) as [Hin'|Hin']; try tauto.
  simpl. unfold simple_record. by rewrite Hn, Hv.
Qed.

Lemma process_dns_records_type_discarded_witness :
  process_dns_records [ RESOURCE.mk "a.com." "A" "1.1.1.1" "yes" ] =
  process_dns_records [ RESOURCE.mk "a.com." "AAAA" "1.1.1.1" "yes" ].
Proof.
  apply process_dns_records_type_discarded.
  constructor; [| constructor]. simpl.
  repeat split; intros _; repeat constructor.
Defined.

(** * Further properties of the reconciler *)

Lemma filter_all {A : Type} (P : A → Prop) `{!∀ x, Decision (P x)}
    (l : list A) :
  (∀ x, x ∈ l → P x) → filter P l = l.
Proof.
  induction l as [|x l IH]; intros Hall; [done |].
  rewrite filter_cons_True by (apply Hall; left).
  f_equal. apply IH. intros y Hy. apply Hall. by right.
Qed.

Lemma filter_none {A : Type} (P : A → Prop) `{!∀ x, Decision (P x)}
    (l : list A) :
  (∀ x, x ∈ l → ¬ P x) → filter P l = [].
Proof.
  induction l as [|x l IH]; intros Hnone; [done |].
  rewrite filter_cons_False by (apply Hnone; left).
  apply IH. intros y Hy. apply Hnone. by right.
Qed.

Lemma Object_fromEntries_own_last {V : Type} (es es' : list (string * V))
    (k : string) (v : V) :
  k ∉ es'.*1 → obj_own (Object_fromEntries (es ++ (k, v) :: es')) k = Some v.
Proof.
  induction es' as [|[k' v'] es' IH] using rev_ind; intros Hk.
  - rewrite Object_fromEntries_snoc, obj_own_set. by rewrite decide_True.
  - rewrite fmap_app, not_elem_of_app in Hk. destruct Hk as [Hk Hk'].
    rewrite app_comm_cons, app_assoc, Object_fromEntries_snoc, obj_own_set.
    rewrite decide_False; [by apply IH |].
    intros ->. apply Hk'. simpl. left.
Qed.

Lemma obj_own_None {V : Type} (o : list (string * V)) (k : string) :
  obj_own o k = None ↔ k ∉ o.*1.
Proof.
  rewrite <- obj_own_is_Some, <- eq_None_not_Some. done.
Qed.

(** The shape of every run of the reconciler: only requests are emitted,
    their kinds follow the order read, add, update, delete without a gap,
    and the run never ends the process. *)
Lemma process_wedocs_shape (cfg : config) (env : gmap string string)
    (world : remote) (data : list Normalized.t) :
  let result := process_wedocs cfg env world data in
  Network <$> network_calls result.1 = result.1 ∧
  request_kind <$> network_calls result.1 `prefix_of` [1; 2; 3; 4] ∧
  ∀ code, result.2 ≠ Exited code.
Proof.
  unfold process_wedocs. rewrite remove_irrelevant_records_true.
  destruct (answer_records world) as [res|]; simpl;
    [| by repeat split; [eexists |]].
  destruct (name_id_entries _ res) as [entries|]; simpl;
    [| by repeat split; [eexists |]].
  destruct (answer_add world _); simpl; [| by repeat split; [eexists |]].
  destruct (answer_update world _); simpl; [| by repeat split; [eexists |]].
  destruct (answer_del world _); simpl; by repeat split; [eexists |].
Qed.

(** X7. Every normalised record is submitted exactly once, to [add] or to
    [update]: no record is in both sets, none is left out, and the two
    payloads together are as long as the record list.  Row by row, an
    inserted row carries the record's name as its id and an updated row
    the id the mapping gives for the name; either carries the record's
    [rdata] as one text fragment under the rdata title, its name as one
    text fragment under the name title when the two titles differ, and no
    other field. *)
Theorem every_record_is_inserted_or_updated (env : gmap string string)
    (mapping : list (string * string)) (data : list Normalized.t) :
  length (insert_payload env mapping data)
    + length (update_payload env mapping data) = length data ∧
  (∀ r, r ∈ data ↔ r ∈ records_to_insert mapping data ∨
                   r ∈ records_to_update mapping data) ∧
  (∀ r, r ∈ records_to_insert mapping data →
        r ∉ records_to_update mapping data) ∧
  Forall2
    (λ r row,
       OutRow.record_id row = VString (Normalized.name r) ∧
       OutRow.values row !! FIELD_DNS_RDATA env
         = Some [ {| Fragment.type := "text";
                     Fragment.text := Normalized.rdata r |} ] ∧
       (FIELD_DNS_NAME env ≠ FIELD_DNS_RDATA env →
        OutRow.values row !! FIELD_DNS_NAME env
          = Some [ {| Fragment.type := "text";
                      Fragment.text := Normalized.name r |} ]) ∧
       (∀ k, k ≠ FIELD_DNS_NAME env → k ≠ FIELD_DNS_RDATA env →
             OutRow.values row !! k = None))
    (records_to_insert mapping data) (insert_payload env mapping data) ∧
  Forall2
    (λ r row,
       OutRow.record_id row = obj_get mapping (Normalized.name r) ∧
       OutRow.values row !! FIELD_DNS_RDATA env
         = Some [ {| Fragment.type := "text";
                     Fragment.text := Normalized.rdata r |} ] ∧
       (FIELD_DNS_NAME env ≠ FIELD_DNS_RDATA env →
        OutRow.values row !! FIELD_DNS_NAME env
          = Some [ {| Fragment.type := "text";
                      Fragment.text := Normalized.name r |} ]) ∧
       (∀ k, k ≠ FIELD_DNS_NAME env → k ≠ FIELD_DNS_RDATA env →
             OutRow.values row !! k = None))
    (records_to_update mapping data) (update_payload env mapping data).
Proof.
  destruct (insert_update_partition mapping data) as (Hdisj & Hcover & Hperm).
  assert (∀ r,
    row_values env r !! FIELD_DNS_RDATA env
      = Some [ {| Fragment.type := "text";
                  Fragment.text := Normalized.rdata r |} ] ∧
    (FIELD_DNS_NAME env ≠ FIELD_DNS_RDATA env →
     row_values env r !! FIELD_DNS_NAME env
       = Some [ {| Fragment.type := "text";
                   Fragment.text := Normalized.name r |} ]) ∧
    (∀ k, k ≠ FIELD_DNS_NAME env → k ≠ FIELD_DNS_RDATA env →
          row_values env r !! k = None)) as Hvalues.
  { intros r. unfold row_values. split; [| split].
    - apply lookup_insert_eq.
    - intros Hne. rewrite lookup_insert_ne by done. apply lookup_insert_eq.
    - intros k Hn Hr. by rewrite !lookup_insert_ne, lookup_empty by done. }
  split; [| split; [done | split; [done | split]]].
  - unfold insert_payload, update_payload. rewrite !length_fmap.
    rewrite <- (Permutation_length Hperm), length_app. lia.
  - unfold insert_payload. apply Forall2_fmap_r, Forall_Forall2_diag.
    apply Forall_forall. intros r _. simpl. split; [done | apply Hvalues].
  - unfold update_payload. apply Forall2_fmap_r, Forall_Forall2_diag.
    apply Forall_forall. intros r _. simpl. split; [done | apply Hvalues].
Qed.

Lemma every_record_is_inserted_or_updated_witness :
  let data := [ Normalized.mk "a.com" "1.1.1.1";
                Normalized.mk "d.com" "4.4.4.4" ] in
  (Normalized.mk "d.com" "4.4.4.4"
     ∉ records_to_update [ ("a.com", "r1") ] data) ∧
  ∃ row, insert_payload ∅ [ ("a.com", "r1") ] data = [ row ] ∧
         OutRow.record_id row = VString "d.com" ∧
         OutRow.values row !! "域名解析记录"
           = Some [ {| Fragment.type := "text"; Fragment.text := "4.4.4.4" |} ] ∧
         OutRow.values row !! "信息系统域名"
           = Some [ {| Fragment.type := "text"; Fragment.text := "d.com" |} ].
Proof.
  intros data.
  destruct (every_record_is_inserted_or_updated ∅ [ ("a.com", "r1") ] data)
    as (_ & _ & Hdisj & Hins & _).
  split.
  - apply Hdisj. apply (bool_decide_unpack _). by vm_compute.
  - assert (records_to_insert [ ("a.com", "r1") ] data
            = [ Normalized.mk "d.com" "4.4.4.4" ]) as Hset by (by vm_compute).
    rewrite Hset in Hins.
    apply Forall2_cons_inv_l in Hins as (row & rest & Hrow & Hrest & Hpay).
    apply Forall2_nil_inv_l in Hrest as ->.
    destruct Hrow as (Hid & Hrdata & Hname & _).
    exists row. split; [exact Hpay |]. split; [exact Hid |].
    split; [exact Hrdata |]. apply Hname. by vm_compute.
Defined.

(** X8. For a record whose name is not a member of [Object.prototype] the two
    sets are decided by the rows alone: it is inserted when no row has its
    name, and otherwise updated under the id of the last row of that name. *)
Theorem own_name_inserted_or_updated (field : string)
    (res : list SheetRow.t) (entries : list (string * string))
    (data : list Normalized.t) (r : Normalized.t) :
  name_id_entries field res = Some entries →
  r ∈ data → Normalized.name r ∉ Object_prototype_keys →
  let mapping := Object_fromEntries entries in
  (r ∈ records_to_insert mapping data ↔
     ¬ ∃ record, record ∈ res ∧
                 row_name field record = Some (Normalized.name r)) ∧
  (r ∈ records_to_update mapping data ↔
     ∃ record, record ∈ res ∧
               row_name field record = Some (Normalized.name r)) ∧
  (∀ before record after,
     res = before ++ record :: after →
     row_name field record = Some (Normalized.name r) →
     (∀ later, later ∈ after →
               row_name field later ≠ Some (Normalized.name r)) →
     obj_get mapping (Normalized.name r)
       = VString (SheetRow.record_id record)).
Proof.
  intros Hentries Hr Hproto mapping.
  assert (Normalized.name r ∈ mapping.*1 ↔
          ∃ record, record ∈ res ∧
                    row_name field record = Some (Normalized.name r)) as Hkeys.
  { unfold mapping.
    rewrite Object_fromEntries_keys, first_occurrences_elem.
    by apply name_id_entries_keys. }
  split; [| split].
  - rewrite records_to_insert_elem, Hkeys. tauto.
  - unfold records_to_update, js_in.
    rewrite list_elem_of_filter, Is_true_true, orb_true_iff.
    rewrite !bool_decide_eq_true, obj_own_is_Some, Hkeys. tauto.
  - intros before record after -> Hname Hlater.
    apply name_id_entries_spec in Hentries.
    apply Forall2_app_inv_l in Hentries
      as (e1 & e2 & He1 & He2 & ->).
    apply Forall2_cons_inv_l in He2 as ([n id] & e3 & [Hn Hid] & He3 & ->).
    simpl in *. rewrite Hname in Hn. injection Hn as <-. subst id.
    unfold obj_get, mapping.
    rewrite Object_fromEntries_own_last; [done |].
    intros (e & Hen & He)%list_elem_of_fmap.
    apply list_elem_of_lookup_1 in He as [i Hi].
    destruct (Forall2_lookup_r _ _ _ _ _ He3 Hi) as (later & Hl & Hln & _).
    apply (Hlater later); [by eapply list_elem_of_lookup_2 |].
    by rewrite Hln, Hen.
Qed.

Lemma own_name_inserted_or_updated_witness :
  let rows := [ Sample.row "r1" "a.com" "1.1.1.1";
                Sample.row "r2" "a.com" "2.2.2.2" ] in
  let mapping := Object_fromEntries [ ("a.com", "r1"); ("a.com", "r2") ] in
  obj_get mapping "a.com" = VString "r2".
Proof.
  intros rows mapping.
  apply (proj2 (proj2 (own_name_inserted_or_updated "信息系统域名" rows
           [ ("a.com", "r1"); ("a.com", "r2") ]
           [ Normalized.mk "a.com" "9.9.9.9" ]
           (Normalized.mk "a.com" "9.9.9.9")
           ltac:(by vm_compute)
           ltac:(repeat constructor)
           ltac:(apply (bool_decide_unpack _); by vm_compute)))
           [ Sample.row "r1" "a.com" "1.1.1.1" ]
           (Sample.row "r2" "a.com" "2.2.2.2") []).
  - reflexivity.
  - by vm_compute.
  - intros later Hin. by apply elem_of_nil in Hin.
Defined.

(** X9. A row without the name field, or whose name field has no fragment,
    makes the run fail with a type error right after the rows are read:
    nothing is written to the sheet. *)
Theorem malformed_row_aborts_before_any_write (cfg : config)
    (env : gmap string string) (world : remote) (data : list Normalized.t)
    (res : list SheetRow.t) (record : SheetRow.t) :
  answer_records world = Fulfilled res →
  record ∈ res →
  SheetRow.values record !! FIELD_DNS_NAME env = None ∨
  SheetRow.values record !! FIELD_DNS_NAME env = Some [] →
  process_wedocs cfg env world data =
    ([Network (sheet_call cfg Record_records)], Threw TypeError).
Proof.
  intros Hres Hin Hbad. unfold process_wedocs. rewrite Hres. simpl.
  assert (name_id_entries (FIELD_DNS_NAME env) res = None) as ->; [| done].
  apply mapM_None, Exists_exists. exists record. split; [done |].
  unfold row_name. by destruct Hbad as [-> | ->].
Qed.

Lemma malformed_row_aborts_before_any_write_witness :
  process_wedocs Sample.cfg (Sample.env "true")
    (Sample.world [] [ SheetRow.mk "r1" ∅ ])
    [ Normalized.mk "a.com" "1.1.1.1" ] =
  ([Network (sheet_call Sample.cfg Record_records)], Threw TypeError).
Proof.
  apply (malformed_row_aborts_before_any_write _ _ _ _
           [ SheetRow.mk "r1" ∅ ] (SheetRow.mk "r1" ∅)).
  - reflexivity.
  - repeat constructor.
  - left. by vm_compute.
Defined.

(** X10. A rejected call ends the run with that rejection, and no later call is
    made: what was already submitted stays submitted. *)
Theorem rejected_call_stops_the_run (cfg : config) (env : gmap string string)
    (world : remote) (data : list Normalized.t) (reason : string) :
  (answer_records world = Rejected reason →
   process_wedocs cfg env world data =
     ([Network (sheet_call cfg Record_records)], Threw (Rejection reason))) ∧
  (∀ res entries,
     answer_records world = Fulfilled res →
     name_id_entries (FIELD_DNS_NAME env) res = Some entries →
     let mapping := Object_fromEntries entries in
     (answer_add world (insert_payload env mapping data) = Rejected reason →
      process_wedocs cfg env world data =
        ([ Network (sheet_call cfg Record_records);
           Network (sheet_call cfg Record_add
                      (insert_payload env mapping data)) ],
         Threw (Rejection reason))) ∧
     (∀ inserted,
        answer_add world (insert_payload env mapping data)
          = Fulfilled inserted →
        (answer_update world (update_payload env mapping data)
           = Rejected reason →
         process_wedocs cfg env world data =
           ([ Network (sheet_call cfg Record_records);
              Network (sheet_call cfg Record_add
                         (insert_payload env mapping data));
              Network (sheet_call cfg Record_update
                         (update_payload env mapping data)) ],
            Threw (Rejection reason))) ∧
        (∀ updated,
           answer_update world (update_payload env mapping data)
             = Fulfilled updated →
           answer_del world (delete_payload mapping data) = Rejected reason →
           process_wedocs cfg env world data =
             ([ Network (sheet_call cfg Record_records);
                Network (sheet_call cfg Record_add
                           (insert_payload env mapping data));
                Network (sheet_call cfg Record_update
                           (update_payload env mapping data));
                Network (sheet_call cfg Record_del
                           (delete_payload mapping data)) ],
              Threw (Rejection reason))))).
Proof.
  split.
  - intros Hres. unfold process_wedocs. by rewrite Hres.
  - intros res entries Hres Hentries mapping. split.
    + intros Hadd. unfold process_wedocs. rewrite Hres. simpl.
      rewrite Hentries. simpl. fold mapping. by rewrite Hadd.
    + intros inserted Hadd. split.
      * intros Hupd. unfold process_wedocs. rewrite Hres. simpl.
        rewrite Hentries. simpl. fold mapping. rewrite Hadd. simpl.
        by rewrite Hupd.
      * intros updated Hupd Hdel. unfold process_wedocs. rewrite Hres. simpl.
        rewrite Hentries. simpl. fold mapping. rewrite Hadd. simpl.
        rewrite Hupd. simpl. rewrite remove_irrelevant_records_true.
        by rewrite Hdel.
Qed.

Lemma rejected_call_stops_the_run_witness :
  let world :=
    {| answer_shared_rrs_get := Fulfilled [];
       answer_records := Rejected "timeout";
       answer_add := λ _, Fulfilled [];
       answer_update := λ _, Fulfilled [];
       answer_del := λ _, Fulfilled () |} in
  process_wedocs Sample.cfg (Sample.env "true") world [] =
  ([Network (sheet_call Sample.cfg Record_records)],
   Threw (Rejection "timeout")).
Proof.
  intros world.
  apply (proj1 (rejected_call_stops_the_run Sample.cfg (Sample.env "true")
                  world [] "timeout")).
  reflexivity.
Defined.



(** X12. An empty record list empties the sheet: nothing is inserted or updated
    and every row name is put on the delete list, once. *)
Theorem empty_input_deletes_every_row (mapping : list (string * string)) :
  records_to_insert mapping [] = [] ∧
  records_to_update mapping [] = [] ∧
  records_to_delete mapping [] = Object_keys mapping ∧
  records_to_delete mapping [] ≡ₚ mapping.*1.
Proof.
  assert (records_to_delete mapping [] = Object_keys mapping) as Hdel.
  { unfold records_to_delete. apply filter_all. intros name _.
    apply not_elem_of_nil. }
  repeat split; [done | by rewrite Hdel, Object_keys_Permutation].
Qed.

(** X13. On a sheet that is already in step with the records, one row name per
    record name and no other, the run inserts nothing and deletes nothing,
    and still rewrites every row. *)
Theorem sheet_in_step_rewrites_every_row (mapping : list (string * string))
    (data : list Normalized.t) :
  (∀ n, n ∈ mapping.*1 ↔ n ∈ dns_record_names data) →
  records_to_insert mapping data = [] ∧
  records_to_update mapping data = data ∧
  records_to_delete mapping data = [].
Proof.
  intros Hsame.
  assert (∀ r, r ∈ data → js_in (Normalized.name r) mapping) as Hin.
  { intros r Hr. unfold js_in. apply Is_true_true, orb_true_iff. left.
    apply bool_decide_eq_true, obj_own_is_Some, Hsame.
    by apply list_elem_of_fmap_2. }
  split; [| split].
  - apply filter_none. intros r Hr Hnot. by apply Hnot, Hin.
  - by apply filter_all.
  - apply filter_none. intros name Hname Hnot. apply Hnot, Hsame.
    by rewrite <- Object_keys_Permutation.
Qed.

Lemma sheet_in_step_rewrites_every_row_witness :
  records_to_insert [ ("a.com", "r1") ] [ Normalized.mk "a.com" "1.1.1.1" ] = [] ∧
  records_to_update [ ("a.com", "r1") ] [ Normalized.mk "a.com" "1.1.1.1" ]
    = [ Normalized.mk "a.com" "1.1.1.1" ] ∧
  records_to_delete [ ("a.com", "r1") ] [ Normalized.mk "a.com" "1.1.1.1" ] = [].
Proof.
  apply sheet_in_step_rewrites_every_row. intros n. simpl.
  unfold dns_record_names. simpl. done.
Defined.

(** * Further properties of the configuration check and the entry point *)

Lemma falsy_false (v : option string) :
  falsy v = false ↔ ∃ s, v = Some s ∧ s ≠ "".
Proof.
  destruct v as [s|]; simpl.
  - rewrite bool_decide_eq_false. split; [by exists s | by intros (? & [= <-] & ?)].
  - split; [done | by intros (? & ? & _)].
Qed.

Lemma falsy_true (v : option string) :
  falsy v = true ↔ v = None ∨ v = Some "".
Proof.
  destruct v as [s|]; simpl.
  - rewrite bool_decide_eq_true. split; [intros ->; by right |].
    by intros [?|[= ->]].
  - split; [by left | done].
Qed.

Lemma load_config_Some (env : gmap string string) :
  is_Some (load_config env) ↔
  ∀ k, k ∈ mandatory → ∃ s, env !! k = Some s ∧ s ≠ "".
Proof.
  rewrite <- not_eq_None_Some, load_config_None. split.
  - intros Hno k Hk. apply falsy_false.
    destruct (falsy (env !! k)) eqn:Hf; [| done]. destruct Hno. eauto.
  - intros Hall (k & Hk & Hf). apply Hall, falsy_false in Hk. congruence.
Qed.

Lemma prog_bind_ret {A : Type} (m : prog A) : prog_bind m prog_ret = m.
Proof.
  destruct m as [tr [a| |]]; simpl; [| done ..]. by rewrite app_nil_r.
Qed.

Lemma init_appwrite_client_ok (setEndpoint : string → option exn)
    (cfg : config) (env : gmap string string) :
  setEndpoint (APPWRITE_ENDPOINT cfg) = None →
  env !! "NODE_ENV" ≠ Some "development" ∨
    falsy (APPWRITE_API_KEY cfg) = false →
  init_appwrite_client setEndpoint cfg env = ([], Returned ()).
Proof.
  intros Hendpoint Hmode. unfold init_appwrite_client. rewrite Hendpoint.
  case_bool_decide as Hdev; [| done].
  destruct Hmode as [Hmode|Hkey]; [done | by rewrite Hkey].
Qed.

Lemma init_appwrite_client_cases (setEndpoint : string → option exn)
    (cfg : config) (env : gmap string string) :
  init_appwrite_client setEndpoint cfg env = ([], Returned ()) ∨
  ∃ e, init_appwrite_client setEndpoint cfg env = ([], Threw e).
Proof.
  unfold init_appwrite_client.
  destruct (setEndpoint _) as [e|]; [right; by exists e |].
  case_bool_decide; [| by left].
  destruct (falsy _); [right; by eexists | by left].
Qed.

(** X14. Past the check, every mandatory constant is the value of its variable
    and is not empty, and the optional key is whatever the environment has;
    the check lets exactly the environments through in which the eleven
    variables are all set to non-empty strings. *)
Theorem load_config_reads_environment (env : gmap string string) :
  (is_Some (load_config env) ↔
   ∀ k, k ∈ mandatory → ∃ s, env !! k = Some s ∧ s ≠ "") ∧
  ∀ cfg, load_config env = Some cfg →
    (env !! "APPWRITE_ENDPOINT" = Some (APPWRITE_ENDPOINT cfg) ∧
     env !! "APPWRITE_FUNCTION_PROJECT_ID"
       = Some (APPWRITE_FUNCTION_PROJECT_ID cfg) ∧
     env !! "APPWRITE_DATABASE_ID" = Some (APPWRITE_DATABASE_ID cfg) ∧
     env !! "APPWRITE_COLLECTION_ID" = Some (APPWRITE_COLLECTION_ID cfg) ∧
     env !! "ZDNS_API_HOST" = Some (ZDNS_API_HOST cfg) ∧
     env !! "ZDNS_API_USERNAME" = Some (ZDNS_API_USERNAME cfg) ∧
     env !! "ZDNS_API_PASSWORD" = Some (ZDNS_API_PASSWORD cfg) ∧
     env !! "CORP_ID" = Some (CORP_ID cfg) ∧
     env !! "SECRET" = Some (SECRET cfg) ∧
     env !! "DOC_ID" = Some (DOC_ID cfg) ∧
     env !! "SHEET_ID" = Some (SHEET_ID cfg)) ∧
    (APPWRITE_ENDPOINT cfg ≠ "" ∧ APPWRITE_FUNCTION_PROJECT_ID cfg ≠ "" ∧
     APPWRITE_DATABASE_ID cfg ≠ "" ∧ APPWRITE_COLLECTION_ID cfg ≠ "" ∧
     ZDNS_API_HOST cfg ≠ "" ∧ ZDNS_API_USERNAME cfg ≠ "" ∧
     ZDNS_API_PASSWORD cfg ≠ "" ∧ CORP_ID cfg ≠ "" ∧ SECRET cfg ≠ "" ∧
     DOC_ID cfg ≠ "" ∧ SHEET_ID cfg ≠ "") ∧
    APPWRITE_API_KEY cfg = env !! "APPWRITE_API_KEY".
Proof.
  split; [apply load_config_Some |]. intros cfg Hcfg.
  assert (∀ k, k ∈ mandatory → ∃ s, env !! k = Some s ∧ s ≠ "") as Hall
    by (apply load_config_Some; by eexists).
  unfold load_config in Hcfg.
  destruct (existsb _ mandatory); [done |]. injection Hcfg as <-. simpl.
  unfold env_or.
  repeat match goal with
  | |- context [env !! ?k] =>
      let s := fresh "s" in let Hs := fresh "Hs" in let Hne := fresh "Hne" in
      destruct (Hall k) as (s & Hs & Hne);
      [by (unfold mandatory; repeat constructor) | rewrite Hs in *; clear Hs]
  end.
  simpl. by repeat split.
Qed.

Lemma load_config_reads_environment_witness :
  Sample.env "true" !! "CORP_ID" = Some (CORP_ID Sample.cfg) ∧
  CORP_ID Sample.cfg ≠ "".
Proof.
  destruct (proj2 (load_config_reads_environment (Sample.env "true"))
              Sample.cfg load_config_sample)
    as [(_ & _ & _ & _ & _ & _ & _ & Hcorp & _)
        [(_ & _ & _ & _ & _ & _ & _ & Hne & _) _]].
  split; [exact Hcorp | exact Hne].
Defined.

(** X15. The run ends the process exactly when a mandatory variable is unset or
    set to the empty string; nothing after the check ever exits. *)
Theorem run_exits_iff_configuration_incomplete
    (setEndpoint : string → option exn) (env : gmap string string)
    (world : remote) :
  (∃ code, (run setEndpoint env world).2 = Exited code) ↔
  ∃ k, k ∈ mandatory ∧ (env !! k = None ∨ env !! k = Some "").
Proof.
  unfold run. destruct (load_config env) as [cfg|] eqn:Hcfg.
  - split.
    + intros [code Hexit]. exfalso. revert Hexit.
      unfold entrypoint, get_dns_records.
      destruct (init_appwrite_client_cases setEndpoint cfg env)
        as [-> | [e ->]]; [| done].
      destruct (answer_shared_rrs_get world) as [resources|]; [| done].
      simpl.
      pose proof (process_wedocs_shape cfg env world
                    (process_dns_records resources)) as (_ & _ & Hno).
      destruct (process_wedocs cfg env world
                  (process_dns_records resources)) as [tr [st|e|c]];
        simpl; [done | done | intros _; by apply (Hno c)].
    + intros (k & Hk & Hf%falsy_true).
      assert (load_config env = None) by (apply load_config_None; eauto).
      congruence.
  - split; [intros _ | by eexists].
    apply load_config_None in Hcfg as (k & Hk & Hf%falsy_true). eauto.
Qed.

Lemma run_exits_iff_configuration_incomplete_witness :
  ∃ code, (run Sample.setEndpoint (<["DOC_ID" := ""]> (Sample.env "true"))
               (Sample.world [] [])).2 = Exited code.
Proof.
  apply run_exits_iff_configuration_incomplete.
  exists "DOC_ID". split; [unfold mandatory; repeat constructor |].
  right. by vm_compute.
Defined.

Lemma load_config_api_key (env : gmap string string) (cfg : config) :
  load_config env = Some cfg →
  APPWRITE_API_KEY cfg = env !! "APPWRITE_API_KEY" ∧
  ZDNS_API_HOST cfg = env_or env "ZDNS_API_HOST" "" ∧
  ZDNS_API_USERNAME cfg = env_or env "ZDNS_API_USERNAME" "" ∧
  ZDNS_API_PASSWORD cfg = env_or env "ZDNS_API_PASSWORD" "".
Proof.
  unfold load_config. destruct (existsb _ mandatory); [done |].
  by intros [= <-].
Qed.

(** X16. In development mode the optional API key is required after all: when
    the client has accepted the endpoint and the key is unset or empty, the
    run throws before it makes any request. *)
Theorem development_mode_requires_api_key
    (setEndpoint : string → option exn) (env : gmap string string)
    (world : remote) (cfg : config) :
  load_config env = Some cfg →
  setEndpoint (APPWRITE_ENDPOINT cfg) = None →
  env !! "NODE_ENV" = Some "development" →
  env !! "APPWRITE_API_KEY" = None ∨ env !! "APPWRITE_API_KEY" = Some "" →
  run setEndpoint env world =
    ([], Threw (Error "APPWRITE_API_KEY is required in development mode")).
Proof.
  intros Hcfg Hendpoint Hdev Hkey. unfold run. rewrite Hcfg.
  destruct (load_config_api_key env cfg Hcfg) as (Hk & _).
  unfold entrypoint, init_appwrite_client. rewrite Hendpoint.
  rewrite bool_decide_eq_true_2 by done.
  by rewrite Hk, (proj2 (falsy_true _) Hkey).
Qed.

Lemma development_mode_requires_api_key_witness :
  run Sample.setEndpoint (<["NODE_ENV" := "development"]> (Sample.env "true"))
      (Sample.world [] []) =
  ([], Threw (Error "APPWRITE_API_KEY is required in development mode")).
Proof.
  apply (development_mode_requires_api_key _ _ _ Sample.cfg).
  - by vm_compute.
  - by vm_compute.
  - by vm_compute.
  - left. by vm_compute.
Defined.

(** X17. The normaliser and the reconciler run only on a fetched record list:
    when the client has been set up and the fetch is rejected, the run ends
    with that rejection after the single fetch request and the sheet is not
    even read. *)
Theorem rejected_fetch_leaves_the_sheet_alone
    (setEndpoint : string → option exn) (env : gmap string string)
    (world : remote) (cfg : config) (reason : string) :
  load_config env = Some cfg →
  setEndpoint (APPWRITE_ENDPOINT cfg) = None →
  env !! "NODE_ENV" ≠ Some "development" ∨
    (∃ key, env !! "APPWRITE_API_KEY" = Some key ∧ key ≠ "") →
  answer_shared_rrs_get world = Rejected reason →
  run setEndpoint env world =
    ([ Network (Zdns_shared_rrs_get (ZDNS_API_HOST cfg) (ZDNS_API_USERNAME cfg)
                                    (ZDNS_API_PASSWORD cfg)) ],
     Threw (Rejection reason)).
Proof.
  intros Hcfg Hendpoint Hmode Hfetch. unfold run. rewrite Hcfg.
  destruct (load_config_api_key env cfg Hcfg) as (Hk & _).
  unfold entrypoint, get_dns_records.
  rewrite init_appwrite_client_ok, Hfetch; [done | done |].
  destruct Hmode as [Hmode|Hkey]; [by left | right].
  rewrite Hk. by apply falsy_false.
Qed.

Lemma rejected_fetch_leaves_the_sheet_alone_witness :
  let world :=
    {| answer_shared_rrs_get := Rejected "unauthorized";
       answer_records := Fulfilled [];
       answer_add := λ _, Fulfilled [];
       answer_update := λ _, Fulfilled [];
       answer_del := λ _, Fulfilled () |} in
  run Sample.setEndpoint (Sample.env "true") world =
  ([ Network (Zdns_shared_rrs_get "https://zdns.example" "user" "password") ],
   Threw (Rejection "unauthorized")).
Proof.
  intros world.
  apply (rejected_fetch_leaves_the_sheet_alone _ _ world Sample.cfg).
  - by vm_compute.
  - by vm_compute.
  - left. by vm_compute.
  - reflexivity.
Defined.

(** X18. The entry point chains the three stages: once the client has been
    set up and the fetch has answered, the requests of the run are the fetch
    request followed by those of the reconciler applied to the normalised
    answer; the run throws what the reconciler throws, and when the
    reconciler returns its statistics the run returns the empty response. *)
Theorem run_composes_fetch_normalise_reconcile
    (setEndpoint : string → option exn) (env : gmap string string)
    (world : remote) (cfg : config) (resources : list RESOURCE.t) :
  load_config env = Some cfg →
  setEndpoint (APPWRITE_ENDPOINT cfg) = None →
  env !! "NODE_ENV" ≠ Some "development" ∨
    (∃ key, env !! "APPWRITE_API_KEY" = Some key ∧ key ≠ "") →
  answer_shared_rrs_get world = Fulfilled resources →
  let reconciled :=
    process_wedocs cfg env world (process_dns_records resources) in
  run setEndpoint env world =
    (Network (Zdns_shared_rrs_get (ZDNS_API_HOST cfg) (ZDNS_API_USERNAME cfg)
                                  (ZDNS_API_PASSWORD cfg)) :: reconciled.1,
     match reconciled.2 with
     | Returned _ => Returned ()
     | Threw e => Threw e
     | Exited code => Exited code
     end).
Proof.
  intros Hcfg Hendpoint Hmode Hfetch reconciled. unfold run. rewrite Hcfg.
  destruct (load_config_api_key env cfg Hcfg) as (Hk & _).
  unfold entrypoint, get_dns_records.
  rewrite init_appwrite_client_ok, Hfetch; [| done |].
  - simpl. fold reconciled.
    destruct reconciled as [tr [st|e|c]]; simpl; [| done ..].
    by rewrite app_nil_r.
  - destruct Hmode as [Hmode|Hkey]; [by left | right].
    rewrite Hk. by apply falsy_false.
Qed.

Lemma run_composes_fetch_normalise_reconcile_witness :
  let resources := [ RESOURCE.mk "a.com." "A" "1.1.1.1" "yes" ] in
  let world := Sample.world resources [] in
  run Sample.setEndpoint (Sample.env "true") world =
  ( [ Network (Zdns_shared_rrs_get "https://zdns.example" "user" "password");
      Network (Record_records "corp" "secret" "doc" "sheet");
      Network (Record_add "corp" "secret" "doc" "sheet"
        [ {| OutRow.record_id := VString "a.com";
             OutRow.values := row_values (Sample.env "true")
                                (Normalized.mk "a.com" "1.1.1.1") |} ]);
      Network (Record_update "corp" "secret" "doc" "sheet" []);
      Network (Record_del "corp" "secret" "doc" "sheet" []) ],
    Returned () ).
Proof.
  intros resources world.
  rewrite (run_composes_fetch_normalise_reconcile Sample.setEndpoint
             (Sample.env "true") world Sample.cfg resources);
    [by vm_compute | by vm_compute | by vm_compute | left; by vm_compute
    | reflexivity].
Defined.

(** X19. Whatever the environment and the services do, a run makes at most five
    requests and makes them in the fixed order fetch, read, add, update,
    delete, never skipping one to make a later one. *)
Theorem run_request_order (setEndpoint : string → option exn)
    (env : gmap string string) (world : remote) :
  request_kind <$> network_calls (run setEndpoint env world).1
    `prefix_of` [0; 1; 2; 3; 4].
Proof.
  unfold run. destruct (load_config env) as [cfg|]; [| by eexists].
  unfold entrypoint, get_dns_records.
  destruct (init_appwrite_client_cases setEndpoint cfg env)
    as [-> | [e ->]]; [| by eexists].
  destruct (answer_shared_rrs_get world) as [resources|]; [| by eexists].
  simpl.
  pose proof (process_wedocs_shape cfg env world
                (process_dns_records resources)) as (_ & Hpre & _).
  destruct (process_wedocs cfg env world (process_dns_records resources))
    as [tr [st|e|c]]; simpl in *;
    rewrite ?app_nil_r; by apply (prefix_cons 0).
Qed.

(** * Further properties of the normaliser on a store *)

Lemma simples_at_weaken (h h' : gmap positive Store.object) (l : positive)
    (rs : list Normalized.t) :
  h ⊆ h' → Store.simples_at h l = Some rs → Store.simples_at h' l = Some rs.
Proof.
  intros Hsub (elems & Hl & Helems)%simples_at_Some.
  apply simples_at_Some. exists elems.
  split; [by eapply lookup_weaken |].
  eapply Forall2_impl; [exact Helems |]. intros l0 r0 Hl0.
  eapply lookup_weaken; [exact Hl0 | exact Hsub].
Qed.

Lemma process_dns_records_on_store (h : gmap positive Store.object)
    (dns_records : positive) (rs : list RESOURCE.t) :
  Store.resources_at h dns_records = Some rs →
  ∃ records_data h' out,
    Store.process_dns_records dns_records h = Some (records_data, h') ∧
    h ⊆ h' ∧ (records_data ∉ dom h) ∧
    h' !! records_data = Some (Store.Array_obj out) ∧
    (∀ l, l ∈ out → (l ∉ dom h) ∧ l ∈ dom h') ∧
    Store.simples_at h' records_data = Some (process_dns_records rs).
Proof.
  intros Hin.
  destruct (prepare_spec h dns_records rs Hin)
    as (rd & elems & h1 & Hprep & Hsub1 & Hrd_fresh & Hrd & Helems & Hnd & Hfresh).
  destruct (merge_loop_spec rd elems (simple_record_data rs) [] [] h1)
    as (h' & out & Hloop & Hrd' & Hout & _ & Hbound & Hsame);
    [done | constructor | done | done |].
  exists rd, h', out. split.
  { unfold Store.process_dns_records.
    rewrite heap_bind_eq, Hprep, heap_bind_eq. simpl. by rewrite Hloop. }
  split.
  { apply map_subseteq_spec. intros l o Hl.
    rewrite Hsame; [by eapply lookup_weaken | |].
    - intros ->. apply Hrd_fresh. apply elem_of_dom. by eexists.
    - intros Hl_out%Hbound. apply (Hfresh _ Hl_out).
      apply elem_of_dom. by eexists. }
  split; [done |]. split; [done |]. split.
  { intros l Hl. split; [by apply Hfresh, Hbound |].
    apply list_elem_of_lookup_1 in Hl as [i Hi].
    destruct (Forall2_lookup_l _ _ _ _ _ Hout Hi) as (r & _ & Hr).
    apply elem_of_dom. by eexists. }
  apply simples_at_Some. by exists out.
Qed.

(** X20. The normaliser can be run again on the same input array: the second
    run returns the same records in a new array that shares no object with
    the first result, and the first result still reads the same. *)
Theorem process_dns_records_twice (h : gmap positive Store.object)
    (dns_records : positive) (rs : list RESOURCE.t) :
  Store.resources_at h dns_records = Some rs →
  ∃ first h1 second h2 out1 out2,
    Store.process_dns_records dns_records h = Some (first, h1) ∧
    Store.process_dns_records dns_records h1 = Some (second, h2) ∧
    first ≠ second ∧
    h2 !! first = Some (Store.Array_obj out1) ∧
    h2 !! second = Some (Store.Array_obj out2) ∧
    (∀ l, l ∈ out1 → l ∉ out2) ∧
    Store.simples_at h2 first = Some (process_dns_records rs) ∧
    Store.simples_at h2 second = Some (process_dns_records rs) ∧
    Store.resources_at h2 dns_records = Some rs.
Proof.
  intros Hin.
  destruct (process_dns_records_on_store h dns_records rs Hin)
    as (rd1 & h1 & out1 & Hrun1 & Hsub1 & Hfresh1 & Hrd1 & Hout1 & Hres1).
  assert (Store.resources_at h1 dns_records = Some rs) as Hin1.
  { apply resources_at_Some in Hin as (ins & Harr & Hins).
    apply resources_at_Some. exists ins.
    split; [by eapply lookup_weaken |].
    eapply Forall2_impl; [exact Hins |]. intros l r.
    by apply resource_at_weaken. }
  destruct (process_dns_records_on_store h1 dns_records rs Hin1)
    as (rd2 & h2 & out2 & Hrun2 & Hsub2 & Hfresh2 & Hrd2 & Hout2 & Hres2).
  exists rd1, h1, rd2, h2, out1, out2.
  split; [done |]. split; [done |]. split.
  { intros <-. apply Hfresh2. apply elem_of_dom. by eexists. }
  split; [by eapply lookup_weaken |]. split; [done |]. split.
  { intros l Hl1 Hl2. apply Hout2 in Hl2 as [Hl2 _].
    apply Hl2. by apply Hout1. }
  split; [by eapply simples_at_weaken |]. split; [done |].
  apply resources_at_Some in Hin1 as (ins & Harr & Hins).
  apply resources_at_Some. exists ins.
  split; [by eapply lookup_weaken |].
  eapply Forall2_impl; [exact Hins |]. intros l r.
  by apply resource_at_weaken.
Qed.

Lemma process_dns_records_twice_witness :
  let h : gmap positive Store.object :=
    list_to_map
      [ (1%positive, Store.Resource_obj (RESOURCE.mk "a.com." "A" "1.1.1.1" "yes"));
        (2%positive, Store.Array_obj [1%positive; 1%positive]) ] in
  ∃ first h1 second h2,
    Store.process_dns_records 2%positive h = Some (first, h1) ∧
    Store.process_dns_records 2%positive h1 = Some (second, h2) ∧
    first ≠ second ∧
    Store.simples_at h2 first = Some [ Normalized.mk "a.com" "1.1.1.1,1.1.1.1" ].
Proof.
  intros h.
  destruct (process_dns_records_twice h 2%positive
              [ RESOURCE.mk "a.com." "A" "1.1.1.1" "yes";
                RESOURCE.mk "a.com." "A" "1.1.1.1" "yes" ])
    as (first & h1 & second & h2 & _ & _ & H1 & H2 & Hne & _ & _ & _ & Hf & _);
    [by vm_compute |].
  exists first, h1, second, h2. by repeat split.
Defined.

(** * The inverse dictionary *)

Lemma Object_entries_elem {V : Type} (o : list (string * V)) (k : string)
    (v : V) :
  (k, v) ∈ Object_entries o ↔ obj_own o k = Some v.
Proof.
  unfold Object_entries. rewrite list_elem_of_omap. split.
  - intros (k' & _ & Hk'). destruct (obj_own o k') eqn:Ho; simplify_eq/=. done.
  - intros Ho. exists k. rewrite Ho. split; [| done].
    rewrite Object_keys_Permutation. apply obj_own_is_Some. by eexists.
Qed.

Lemma Object_entries_keys_sublist {V : Type} (o : list (string * V)) :
  (Object_entries o).*1 `sublist_of` Object_keys o.
Proof.
  unfold Object_entries. induction (Object_keys o) as [|k ks IH]; simpl.
  - constructor.
  - destruct (obj_own o k); simpl; by constructor.
Qed.

Lemma obj_own_elem {V : Type} (o : list (string * V)) (k : string) (v : V) :
  obj_own o k = Some v → (k, v) ∈ o.
Proof.
  induction o as [|[k' v'] o IH]; simpl; [done |].
  destruct (decide (k' = k)) as [->|]; [intros [= ->]; left |].
  intros H. right. by apply IH.
Qed.

Lemma obj_own_inj {V : Type} (o : list (string * V)) (k k' : string) (v : V) :
  NoDup o.*2 → obj_own o k = Some v → obj_own o k' = Some v → k = k'.
Proof.
  intros Hnd [i Hi]%obj_own_elem%list_elem_of_lookup_1
         [j Hj]%obj_own_elem%list_elem_of_lookup_1.
  assert (i = j) as ->.
  { eapply (NoDup_lookup o.*2 i j v); [done | |];
      rewrite list_lookup_fmap; [by rewrite Hi | by rewrite Hj]. }
  congruence.
Qed.

(** X21. The inverse dictionary only holds pairs of the name mapping turned
    round, and when no two names share a row id it is a true inverse:
    looking a row id up gives the name that maps to it. *)
Theorem record_id_name_mappings_inverse (entries : list (string * string)) :
  let mapping := Object_fromEntries entries in
  (∀ id name, obj_own (record_id_name_mappings mapping) id = Some name →
              obj_own mapping name = Some id) ∧
  (NoDup mapping.*2 →
   ∀ name id, obj_own mapping name = Some id →
              obj_own (record_id_name_mappings mapping) id = Some name).
Proof.
  intros mapping. split.
  - intros id name Hinv. unfold record_id_name_mappings in Hinv.
    apply Object_fromEntries_own, list_elem_of_fmap in Hinv
      as ([n i] & [= -> ->] & He).
    by apply Object_entries_elem.
  - intros Hids name id Hown. unfold record_id_name_mappings.
    assert (NoDup (Object_entries mapping).*1) as Hkeys.
    { eapply sublist_NoDup; [| apply Object_entries_keys_sublist].
      rewrite Object_keys_Permutation. unfold mapping.
      rewrite Object_fromEntries_keys. apply first_occurrences_NoDup. }
    apply Object_entries_elem, list_elem_of_split in Hown
      as (l1 & l2 & Hsplit).
    rewrite Hsplit in Hkeys |- *. rewrite fmap_app, fmap_cons. simpl.
    apply Object_fromEntries_own_last.
    rewrite <- list_fmap_compose.
    intros ([n i] & Hi & He)%list_elem_of_fmap. simpl in Hi. subst i.
    assert (obj_own mapping n = Some id) as Hn.
    { apply Object_entries_elem. rewrite Hsplit.
      apply elem_of_app. right. by right. }
    assert (obj_own mapping name = Some id) as Hname.
    { apply Object_entries_elem. rewrite Hsplit.
      apply elem_of_app. right. left. }
    assert (n = name) as -> by (by eapply obj_own_inj).
    rewrite fmap_app, fmap_cons in Hkeys.
    apply NoDup_app in Hkeys as (_ & _ & Hkeys).
    apply NoDup_cons in Hkeys as [Hnotin _]. apply Hnotin.
    by apply (list_elem_of_fmap_2 fst) in He.
Qed.

Lemma record_id_name_mappings_inverse_witness :
  obj_own (record_id_name_mappings
             (Object_fromEntries [ ("a.com", "r1"); ("c.com", "r2") ])) "r2"
  = Some "c.com".
Proof.
  apply (proj2 (record_id_name_mappings_inverse
                  [ ("a.com", "r1"); ("c.com", "r2") ])).
  - apply (bool_decide_unpack _). by vm_compute.
  - by vm_compute.
Defined.
